(** * Myriota math library: circular sample store, resampler windows, rationals

  A shallow embedding of the C++ part of [math/myriotamath.h]
  ([CircularBuffer], [Upsampler], [Downsampler]) and of the rational
  helpers it declares, with the properties the design document states
  about them. *)

From Stdlib Require Import ZArith Lia Bool QArith Qround Qabs Lqa.
From Stdlib Require Import PrimFloat SpecFloat FloatOps FloatAxioms.
From stdpp Require Import base list strings pretty.

Open Scope Z_scope.

(** ** Machine integers

  [unsigned int] is 32 bits wide and [uint64_t], [int64_t] are 64 bits wide.
  Values are kept in [Z] and the wrap-around of each operation is written
  out where the code performs it. *)
Module MachineInt.

Definition UINT_WIDTH : Z := 32.

(** Arithmetic in [unsigned int]: reduction modulo 2^32. *)
Definition wrap_uint (x : Z) : Z := x mod 2 ^ UINT_WIDTH.

(** Arithmetic in [uint64_t]: reduction modulo 2^64. *)
Definition wrap_uint64 (x : Z) : Z := x mod 2 ^ 64.

(** Conversion of a 64 bit pattern to [int64_t] (two's complement). *)
Definition to_int64 (x : Z) : Z := (x + 2 ^ 63) mod 2 ^ 64 - 2 ^ 63.

Definition INT64_MIN : Z := - 2 ^ 63.
Definition INT64_MAX : Z := 2 ^ 63 - 1.

End MachineInt.
Import MachineInt.

(** ** Powers of two *)
Module PowerOfTwo.

(** The candidates p, 2p, 4p, ... are tried in turn, [fuel] of them. *)
Fixpoint first_power_from (fuel : nat) (p x : Z) : Z :=
  match fuel with
  | O => p
  | S fuel' => if x <=? p then p else first_power_from fuel' (2 * p) x
  end.

(** Modelled from the spec: the body of [myriota_greater_power_of_two] is
    missing from the sources, which only declare it with the comment
    "Returns smallest power of 2 greater than or equal to this integer".
    The result is an [unsigned int]; an argument above 2^31 has no such
    power in that type and the model wraps 2^32 to 0 there. *)
Definition myriota_greater_power_of_two (x : Z) : Z :=
  wrap_uint (first_power_from 32 1 x).

Definition is_power_of_two (p : Z) : Prop := exists k, 0 <= k /\ p = 2 ^ k.

End PowerOfTwo.
Import PowerOfTwo.

(** ** Exceptions and outcomes of a call *)

(** [std::out_of_range] with the message [what()] returns. *)
Inductive exception : Type :=
| out_of_range (what : string).

(** A call returns a value, throws, or indexes a [std::vector] outside its
    length, which C++ leaves undefined. *)
Inductive outcome (A : Type) : Type :=
| Returns (a : A)
| Throws (e : exception)
| Undefined.
Arguments Returns {A} a.
Arguments Throws {A} e.
Arguments Undefined {A}.

(** ** [template <typename T> class CircularBuffer] *)
Module CircularBuffer.
Section Elem.
Context {T : Type}.

(** Data members: [size], [mask] ([unsigned int]), [buf] ([std::vector<T>])
    and the counter [N] ([uint64_t]). *)
Record t : Type := Build {
  size : Z;
  mask : Z;
  buf : list T;
  N : Z
}.

(** [CircularBuffer(unsigned int size, T init)]: the members are initialised
    in order, [size + 1] and [size - 1] in [unsigned int]. *)
Definition CircularBuffer (size0 : Z) (init : T) : t :=
  let size' := myriota_greater_power_of_two (wrap_uint (size0 + 1)) in
  {| size := size';
     mask := wrap_uint (size' - 1);
     buf := replicate (Z.to_nat size') init;
     N := 0 |}.

(** [push]: [buf[N & mask] = elem; N++]. For a buffer made by the constructor
    the slot is always inside [buf]; outside it the vector is left as it is. *)
Definition push (b : t) (elem : T) : t :=
  {| size := size b;
     mask := mask b;
     buf := <[Z.to_nat (Z.land (N b) (mask b)) := elem]> (buf b);
     N := wrap_uint64 (N b + 1) |}.

Definition pushed (b : t) : Z := N b.

(** [maxn] and [minn]: the subtraction is done in [uint64_t] and the result
    is returned as [int64_t]. *)
Definition maxn (b : t) : Z := to_int64 (wrap_uint64 (N b - 1)).
Definition minn (b : t) : Z := to_int64 (wrap_uint64 (N b - size b)).

(** [operator()]: [buf[n & mask]], no validation. *)
Definition read (b : t) (n : Z) : option T :=
  buf b !! Z.to_nat (Z.land n (mask b)).

(** The message of the exception: ["circluar buffer " + which + " " +
    std::to_string(n) + " outside [" + std::to_string(minn()) + ", " +
    std::to_string(maxn()) + "]"], with [which] one of "at" and "set". *)
Definition what (which : string) (b : t) (n : Z) : string :=
  "circluar buffer " +:+ which +:+ " " +:+ pretty n +:+ " outside [" +:+
  pretty (minn b) +:+ ", " +:+ pretty (maxn b) +:+ "]".

(** [at]: read after index validation. *)
Definition at_ (b : t) (n : Z) : outcome T :=
  if (minn b <=? n) && (n <=? maxn b) then
    match read b n with
    | Some v => Returns v
    | None => Undefined
    end
  else Throws (out_of_range (what "at" b n)).

(** [set]: write after index validation. *)
Definition set (b : t) (n : Z) (v : T) : outcome t :=
  if (minn b <=? n) && (n <=? maxn b) then
    let slot := Z.to_nat (Z.land n (mask b)) in
    if (slot <? length (buf b))%nat then
      Returns {| size := size b; mask := mask b;
                 buf := <[slot := v]> (buf b); N := N b |}
    else Undefined
  else Throws (out_of_range (what "set" b n)).

(** The calls that change a buffer, and a run of them. A [set] that throws
    leaves the buffer as it was. *)
Inductive op : Type :=
| Push (elem : T)
| SetAt (n : Z) (v : T).

Definition step (b : t) (o : op) : t :=
  match o with
  | Push elem => push b elem
  | SetAt n v => match set b n v with
                 | Returns b' => b'
                 | _ => b
                 end
  end.

Definition run (b : t) (ops : list op) : t := fold_left step ops b.

(** How many of the calls are pushes. *)
Fixpoint pushes (ops : list op) : Z :=
  match ops with
  | [] => 0
  | Push _ :: ops' => 1 + pushes ops'
  | SetAt _ _ :: ops' => pushes ops'
  end.

(** Pushing the values of a list in order. *)
Definition push_all (b : t) (vs : list T) : t := fold_left push vs b.

(** What the constructor establishes and every call keeps: [size] is a power
    of two that fits [unsigned int], [mask] is [size - 1], [buf] has [size]
    elements and [N] is a [uint64_t]. *)
Definition wf (b : t) : Prop :=
  exists k, 0 <= k <= 31 /\ size b = 2 ^ k /\ mask b = 2 ^ k - 1 /\
            length (buf b) = Z.to_nat (2 ^ k) /\ 0 <= N b < 2 ^ 64.

End Elem.
Arguments t : clear implicits.
Arguments op : clear implicits.
End CircularBuffer.

(** ** [double] arithmetic

    The window bounds of the resamplers are computed in [double]. The
    operations they use are gathered in a class; the instance [binary64] is
    IEEE 754 double precision as the kernel's primitive floats compute it. *)
Module Arith.

Class DoubleOps (D : Type) : Type := {
  of_int64 : Z -> D;             (* conversion of an [int64_t] to [double] *)
  dadd : D -> D -> D;
  dsub : D -> D -> D;
  dmul : D -> D -> D;
  ceil_int64 : D -> option Z;    (* [(int64_t) ceil(x)] *)
  floor_int64 : D -> option Z    (* [(int64_t) floor(x)] *)
}.

(** The conversion of a [double] to [int64_t] is defined only for values in
    the range of [int64_t]. *)
Definition int64_of (z : Z) : option Z :=
  if (INT64_MIN <=? z) && (z <=? INT64_MAX) then Some z else None.

(** The integer a finite float stands for is read off its mantissa [m] and
    exponent [e]: the float is [(-1)^s * m * 2^e]. *)
Definition b64_floor (x : float) : option Z :=
  match Prim2SF x with
  | S754_zero _ => Some 0
  | S754_finite s m e =>
      let v := if s then Z.neg m else Z.pos m in
      Some (if 0 <=? e then v * 2 ^ e else v / 2 ^ (- e))
  | _ => None
  end.

Definition b64_ceil (x : float) : option Z :=
  match Prim2SF x with
  | S754_zero _ => Some 0
  | S754_finite s m e =>
      let v := if s then Z.neg m else Z.pos m in
      Some (if 0 <=? e then v * 2 ^ e else - ((- v) / 2 ^ (- e)))
  | _ => None
  end.

#[export] Instance binary64 : DoubleOps float := {
  of_int64 z := SF2Prim (binary_normalize prec emax z 0 false);
  dadd := PrimFloat.add;
  dsub := PrimFloat.sub;
  dmul := PrimFloat.mul;
  ceil_int64 x := z ← b64_ceil x; int64_of z;
  floor_int64 x := z ← b64_floor x; int64_of z
}.

End Arith.
Import Arith.

(** ** [class Upsampler]

    Of the data members, the window width [W], the scale [gamma] and the
    store [a] decide the index window; the rate [r] and the kernel table
    ([gmin], [gmax], [g_buf]) play no part in it and are left out. *)
Module Upsampler.
Section Ops.
Context {D : Type} `{DoubleOps D}.

(** [complex] is [std::complex<double>]: real and imaginary part. *)
Local Abbreviation complex := (D * D)%type (only parsing).

Record t : Type := Build {
  W : D;
  gamma : D;
  a : CircularBuffer.t complex
}.

(** The body of the constructor [Upsampler(in_rate, out_rate, W)] is not in
    the sources: the scale, the window width and the requested capacity and
    initial element of the store it sets up are parameters here. *)
Definition make (gamma0 W0 : D) (capacity : Z) (init : complex) : t :=
  {| W := W0; gamma := gamma0;
     a := CircularBuffer.CircularBuffer capacity init |}.

Definition push (u : t) (x : complex) : t :=
  {| W := W u; gamma := gamma u; a := CircularBuffer.push (a u) x |}.

Definition pushed (u : t) : Z := CircularBuffer.pushed (a u).

(** [minn]: [ceil(gamma * (a.maxn() - a.size + W))]. The difference is
    computed in [int64_t] and then converted to [double]. *)
Definition minn (u : t) : option Z :=
  ceil_int64
    (dmul (gamma u)
       (dadd (of_int64 (to_int64 (CircularBuffer.maxn (a u) -
                                  CircularBuffer.size (a u))))
             (W u))).

(** [maxn]: [floor(gamma * (a.maxn() - 1 - W))]. *)
Definition maxn (u : t) : option Z :=
  floor_int64
    (dmul (gamma u)
       (dsub (of_int64 (to_int64 (CircularBuffer.maxn (a u) - 1))) (W u))).

Definition push_all (u : t) (xs : list complex) : t := fold_left push xs u.

(** The window as the design document writes it, from the store's largest
    index and its capacity as mathematical integers. *)
Definition spec_minIndex (g w : D) (store_maxIndex capacity : Z) : option Z :=
  ceil_int64 (dmul g (dadd (of_int64 (store_maxIndex - capacity)) w)).

Definition spec_maxIndex (g w : D) (store_maxIndex : Z) : option Z :=
  floor_int64 (dmul g (dsub (of_int64 (store_maxIndex - 1)) w)).

End Ops.
Arguments t D : clear implicits.
End Upsampler.

(** ** [class Downsampler] *)
Module Downsampler.
Section Ops.
Context {D : Type} `{DoubleOps D}.

(** [complex] is [std::complex<double>]: real and imaginary part. *)
Local Abbreviation complex := (D * D)%type (only parsing).

Record t : Type := Build {
  W : D;
  gamma : D;
  a : CircularBuffer.t complex
}.

(** As for the upsampler, the values the constructor computes are
    parameters. *)
Definition make (gamma0 W0 : D) (capacity : Z) (init : complex) : t :=
  {| W := W0; gamma := gamma0;
     a := CircularBuffer.CircularBuffer capacity init |}.

Definition push (u : t) (x : complex) : t :=
  {| W := W u; gamma := gamma u; a := CircularBuffer.push (a u) x |}.

Definition pushed (u : t) : Z := CircularBuffer.pushed (a u).

(** [minn]: [ceil(gamma * (a.maxn() - a.size) + W)]. *)
Definition minn (u : t) : option Z :=
  ceil_int64
    (dadd (dmul (gamma u)
             (of_int64 (to_int64 (CircularBuffer.maxn (a u) -
                                  CircularBuffer.size (a u)))))
          (W u)).

(** [maxn]: [floor(gamma * (a.maxn() - 1) - W)]. *)
Definition maxn (u : t) : option Z :=
  floor_int64
    (dsub (dmul (gamma u)
             (of_int64 (to_int64 (CircularBuffer.maxn (a u) - 1))))
          (W u)).

Definition push_all (u : t) (xs : list complex) : t := fold_left push xs u.

End Ops.
Arguments t D : clear implicits.
End Downsampler.

(** An index window [lo, hi] is empty when both bounds are defined and
    [lo > hi]. *)
Definition window_empty (lo hi : option Z) : Prop :=
  exists l h, lo = Some l /\ hi = Some h /\ l > h.

(** ** Rational numbers

    The header declares [myriota_rational] and the functions on it; their
    bodies are in a source file that is missing here. *)
Module Rational.

(** [typedef struct { long long p; long long q; } myriota_rational]:
    numerator and denominator. *)
Record myriota_rational : Type := Build {
  p : Z;
  q : Z
}.

(** The invariant of the design document: lowest terms, positive
    denominator. *)
Definition reduced (r : myriota_rational) : Prop :=
  Z.gcd (Z.abs (p r)) (q r) = 1 /\ 0 < q r.

(** Modelled from the spec: [gcd] is declared as "Greatest common divisor
    between two integers"; its body is missing. *)
Definition gcd (a b : Z) : Z := Z.gcd a b.

(** Modelled from the spec: [make_myriota_rational] is declared as "construct
    rational number equivalent to a/b. Numerator and denominator of resulting
    rational will always be relatively prime", and the design document asks
    for a positive denominator; its body is missing. Both parts are divided
    by their greatest common divisor and the sign is carried by the
    numerator. The arithmetic is that of [Z]; nothing is said of
    [long long] overflow or of [b = 0]. *)
Definition make_myriota_rational (a b : Z) : myriota_rational :=
  let g := gcd a b in
  let s := if b <? 0 then -1 else 1 in
  {| p := s * (a / g); q := s * (b / g) |}.

(** Modelled from the spec: "The sum of two rational numbers"; the body of
    [myriota_rational_sum] is missing. *)
Definition myriota_rational_sum (a b : myriota_rational) : myriota_rational :=
  make_myriota_rational (p a * q b + p b * q a) (q a * q b).

(** Modelled from the spec: [myriota_continued_fraction] "Computes continued
    fraction expansion of decimal number of size N"; its body is missing.
    The number is a rational here (every finite [double] is one) and the
    expansion is exact; it stops early when the fractional part vanishes. *)
Fixpoint myriota_continued_fraction (size : nat) (x : Q) : list Z :=
  match size with
  | O => []
  | S size' =>
      let r := Qfloor x in
      let f := (x - inject_Z r)%Q in
      r :: (if Qeq_bool f 0 then [] else myriota_continued_fraction size' (/ f)%Q)
  end.

(** The convergents [h/k] of a list of partial quotients, by the recurrence
    [h_n = a_n h_(n-1) + h_(n-2)], [k_n = a_n k_(n-1) + k_(n-2)]. *)
Fixpoint convergents_from (h1 k1 h2 k2 : Z) (cf : list Z) : list (Z * Z) :=
  match cf with
  | [] => []
  | a :: cf' =>
      let h := a * h1 + h2 in
      let k := a * k1 + k2 in
      (h, k) :: convergents_from h k h1 k1 cf'
  end.

Definition convergents (cf : list Z) : list (Z * Z) :=
  convergents_from 1 0 0 1 cf.

(** Modelled from the spec: [myriota_best_approximations] returns the "first
    size best rational approximations to decimal x", the convergents of its
    continued fraction; its body is missing. *)
Definition myriota_best_approximations (x : Q) (size : nat)
  : list myriota_rational :=
  map (fun hk => make_myriota_rational (fst hk) (snd hk))
      (convergents (myriota_continued_fraction size x)).

(** Modelled from the spec: [myriota_rational_approximation] returns one of
    the first [k] convergents of [x]; its body is missing. The documents
    name three criteria (tolerance, [qmax], index [k]) and do not settle how
    they combine, so the choice of the convergent is the parameter [choose]
    (an index into the list, the last convergent when it is too large).
    With [k = 0] no convergent is expanded and nothing is returned. *)
Definition myriota_rational_approximation
    (choose : Q -> Q -> Z -> list myriota_rational -> nat)
    (x tol : Q) (qmax : Z) (k : nat) : option myriota_rational :=
  let b := myriota_best_approximations x k in
  b !! Nat.min (choose x tol qmax b) (Nat.pred (length b)).

(** [#define pi 3.14159265358979323846]: the decimal literal, read
    exactly. *)
Definition pi : Q := 314159265358979323846 # 100000000000000000000.

End Rational.

(** ** The last value written at an index

    A reference for what a run of calls on a store of capacity [C] leaves at
    each index: [count] pushes so far and, for every index, the value the
    latest push or accepted [set] put there ([init] where there was none). *)
Module WriteHistory.
Section Elem.
Context {T : Type}.

Record t : Type := Build {
  count : Z;
  last : Z -> T
}.

Definition start (init : T) : t := {| count := 0; last := fun _ => init |}.

Definition record (C : Z) (h : t) (o : CircularBuffer.op T) : t :=
  match o with
  | CircularBuffer.Push v =>
      {| count := count h + 1;
         last := fun m => if m =? count h then v else last h m |}
  | CircularBuffer.SetAt n v =>
      if (count h - C <=? n) && (n <=? count h - 1) then
        {| count := count h;
           last := fun m => if m =? n then v else last h m |}
      else h
  end.

Definition of_run (C : Z) (init : T) (ops : list (CircularBuffer.op T)) : t :=
  fold_left (record C) ops (start init).

End Elem.
Arguments t : clear implicits.
End WriteHistory.

(** ** Inline helpers of the C part of the header *)
Module InlineMath.

(** [myriota_is_power_of_two]:
    [return myriota_greater_power_of_two(x) == x;]. *)
Definition myriota_is_power_of_two (x : Z) : Z :=
  if myriota_greater_power_of_two x =? x then 1 else 0.

(** [myriota_int_div_ceil] and [myriota_long_div_ceil]:
    [return a / b + (a % b != 0);] in an unsigned type of [width] bits.
    Division by zero is undefined. *)
Definition div_ceil (width : Z) (a b : Z) : option Z :=
  if b =? 0 then None
  else Some ((a / b + (if a mod b =? 0 then 0 else 1)) mod 2 ^ width).

Definition myriota_int_div_ceil (a b : Z) : option Z := div_ceil 32 a b.

(** [unsigned long] is as wide as the platform makes it. *)
Definition myriota_long_div_ceil (width : Z) (a b : Z) : option Z :=
  div_ceil width a b.

(** [template <class T> T mod(const T &x, const T &y)]:
    [const T t = x % y; if (t < 0) return t + y; return t;]. The remainder
    [%] has the sign of [x]; a zero [y] is undefined. *)
Definition mod_ (x y : Z) : option Z :=
  if y =? 0 then None
  else let t := Z.rem x y in
       Some (if t <? 0 then t + y else t).

(** [myriota_signum]: [return (x > 0) - (x < 0);]. The comparisons are
    [int]s and their difference is converted to [double]. *)
Definition myriota_signum (x : float) : float :=
  of_int64 ((if (0 <? x)%float then 1 else 0) -
            (if (x <? 0)%float then 1 else 0)).

(** [myriota_sqr]: [return x * x;]. *)
Definition myriota_sqr (x : float) : float := (x * x)%float.

(** [myriota_cub]: [return x * x * x;]. *)
Definition myriota_cub (x : float) : float := (x * x * x)%float.

End InlineMath.

(** ** The development board: battery voltage ([bsp.c])

    The board functions act through the hardware interface, whose header is
    not in the sources. A call of it is recorded by its name and arguments,
    and what the hardware answers is an input of the model. *)
Module Board.

(** The pins, pulls and references that [bsp.c] names. *)
Inductive pin : Type := PIN_GPIO2 | PIN_GPIO3 | PIN_GPIO4 | PIN_GPIO6
                      | PIN_ADC1 | PIN_BAND.
Inductive pull : Type := GPIO_PULL_DOWN | GPIO_NO_PULL.
Inductive ADCReference : Type := ADC_REF_VIO | ADC_REF_2V5.

Inductive call : Type :=
| GPIOSetModeInput (p : pin) (pl : pull)
| GPIOSetModeOutput (p : pin)
| GPIOSetHigh (p : pin)
| GPIOSetLow (p : pin)
| GPIOGet (p : pin)
| Delay (ms : Z)
| ADCGetVoltage (p : pin) (ref : ADCReference).

Definition VEXT_COMPENSATE : Z := 15.
Definition SWITCH_SETTLE_TIME : Z := 1.
Definition AVERAGE_COUNT : nat := 3.
Definition ADCPin : pin := PIN_ADC1.
Definition ControlPin : pin := PIN_GPIO2.

(** Arithmetic in [uint16_t]. *)
Definition wrap_uint16 (x : Z) : Z := x mod 2 ^ 16.

(** What a function did: the calls it made in order, the value it returned
    and the value it stored through [mv], if it stored one. *)
Record result : Type := Build {
  trace : list call;
  ret : Z;
  mv : option Z
}.

(** The averaging loop, [left] rounds from round [i] on. [adc i] is what the
    [i]-th call of [ADCGetVoltage] answers: the value it returns and the
    voltage it stores in [batt]. The loop ends early, releasing the switch,
    when a call returns a value other than 0; otherwise
    [volt += batt + VEXT_COMPENSATE] in [uint32_t]. *)
Fixpoint average_loop (adc : nat -> Z * Z) (IsRev1 : bool) (left i : nat)
    (volt : Z) (tr : list call) : list call * option Z :=
  match left with
  | O => (tr, Some volt)
  | S left' =>
      let Ref := if IsRev1 then ADC_REF_VIO else ADC_REF_2V5 in
      let tr' := tr ++ [ADCGetVoltage ADCPin Ref] in
      if fst (adc i) =? 0 then
        average_loop adc IsRev1 left' (S i)
          (wrap_uint (volt + wrap_uint (snd (adc i) + VEXT_COMPENSATE))) tr'
      else (tr' ++ [GPIOSetModeInput ControlPin GPIO_PULL_DOWN], None)
  end.

(** The calls before the loop: the revision is read off [PIN_ADC1], then the
    measurement switch is closed and left to settle. *)
Definition prepare : list call :=
  [GPIOSetModeInput PIN_ADC1 GPIO_NO_PULL; GPIOGet PIN_ADC1;
   GPIOSetModeOutput ControlPin; GPIOSetHigh ControlPin;
   Delay SWITCH_SETTLE_TIME].

(** [int BoardBatteryVoltGet(uint32_t *mv)]. [IsRev1] is whether
    [GPIOGet(PIN_ADC1)] answered [GPIO_HIGH]. *)
Definition BoardBatteryVoltGet (IsRev1 : bool) (adc : nat -> Z * Z) : result :=
  match average_loop adc IsRev1 AVERAGE_COUNT 0 0 prepare with
  | (tr, None) => {| trace := tr; ret := -1; mv := None |}
  | (tr, Some volt) =>
      let m := volt / Z.of_nat AVERAGE_COUNT in
      {| trace := tr ++ [GPIOSetModeInput ControlPin GPIO_PULL_DOWN];
         ret := 0;
         mv := Some (if IsRev1 then m else wrap_uint (m * 2)) |}
  end.

(** [int ShortBatteryVoltGet(uint16_t *mv)]: the same, with the two stores
    through [mv] in [uint16_t]. *)
Definition ShortBatteryVoltGet (IsRev1 : bool) (adc : nat -> Z * Z) : result :=
  match average_loop adc IsRev1 AVERAGE_COUNT 0 0 prepare with
  | (tr, None) => {| trace := tr; ret := -1; mv := None |}
  | (tr, Some volt) =>
      let m := wrap_uint16 (volt / Z.of_nat AVERAGE_COUNT) in
      {| trace := tr ++ [GPIOSetModeInput ControlPin GPIO_PULL_DOWN];
         ret := 0;
         mv := Some (if IsRev1 then m else wrap_uint16 (m * 2)) |}
  end.

(** The number of [ADCGetVoltage] calls in a trace. *)
Fixpoint adc_calls (tr : list call) : nat :=
  match tr with
  | [] => O
  | ADCGetVoltage _ _ :: tr' => S (adc_calls tr')
  | _ :: tr' => adc_calls tr'
  end.

End Board.

(** * Properties *)

(** ** Machine integers *)
Module MachineIntFacts.

Lemma wrap_uint_small x : 0 <= x < 2 ^ 32 -> wrap_uint x = x.
Proof. intros H. unfold wrap_uint, UINT_WIDTH. apply Z.mod_small. exact H. Qed.

Lemma wrap_uint64_small x : 0 <= x < 2 ^ 64 -> wrap_uint64 x = x.
Proof. intros H. unfold wrap_uint64. apply Z.mod_small. exact H. Qed.

Lemma wrap_uint64_range x : 0 <= wrap_uint64 x < 2 ^ 64.
Proof. unfold wrap_uint64. apply Z.mod_pos_bound. lia. Qed.

Lemma wrap_uint64_add_l x y : wrap_uint64 (wrap_uint64 x + y) = wrap_uint64 (x + y).
Proof. unfold wrap_uint64. apply Zplus_mod_idemp_l. Qed.

Lemma to_int64_small x : - 2 ^ 63 <= x < 2 ^ 63 -> to_int64 x = x.
Proof. intros H. unfold to_int64. rewrite Z.mod_small; lia. Qed.

(** The signed reading of an unsigned 64 bit difference is the difference
    itself as long as that fits in [int64_t]. *)
Lemma to_int64_wrap x :
  - 2 ^ 63 <= x < 2 ^ 63 -> to_int64 (wrap_uint64 x) = x.
Proof.
  intros H. unfold to_int64, wrap_uint64.
  rewrite Zplus_mod_idemp_l. rewrite Z.mod_small; lia.
Qed.

(** Masking with [2^k - 1] is reduction modulo [2^k], also for negative
    numbers in two's complement. *)
Lemma land_mask n k : 0 <= k -> Z.land n (2 ^ k - 1) = n mod 2 ^ k.
Proof.
  intros Hk. rewrite <- Z.land_ones by exact Hk.
  rewrite Z.ones_equiv. reflexivity.
Qed.

(** Two different indices less than [m] apart fall into different slots. *)
Lemma mod_apart n l m :
  0 < m -> n < l < n + m -> n mod m <> l mod m.
Proof.
  intros Hm Hnl Heq.
  assert (Hd : (l - n) mod m = 0).
  { rewrite Zminus_mod, Heq, Z.sub_diag. apply Z.mod_0_l. lia. }
  rewrite Z.mod_small in Hd; lia.
Qed.

End MachineIntFacts.
Import MachineIntFacts.

(** ** Powers of two *)
Module PowerOfTwoFacts.

Lemma first_power_from_spec fuel : forall k x,
  0 <= k -> 2 ^ k < 2 * x -> x <= 2 ^ (k + Z.of_nat fuel) ->
  exists j, k <= j <= k + Z.of_nat fuel /\
            first_power_from fuel (2 ^ k) x = 2 ^ j /\
            x <= 2 ^ j /\ 2 ^ j < 2 * x.
Proof.
  induction fuel as [|fuel IH]; intros k x Hk Hlo Hhi.
  - exists k. simpl. rewrite Z.add_0_r in Hhi. repeat split; lia.
  - simpl first_power_from. destruct (Z.leb_spec x (2 ^ k)) as [Hle|Hgt].
    + exists k. repeat split; lia.
    + assert (Hpow : 2 * 2 ^ k = 2 ^ (k + 1)) by (rewrite Z.pow_add_r; lia).
      rewrite Hpow.
      destruct (IH (k + 1) x) as (j & Hj & Heq & Hge & Hlt); try lia.
      * replace (k + 1 + Z.of_nat fuel) with (k + Z.of_nat (S fuel)) by lia.
        exact Hhi.
      * exists j. repeat split; lia.
Qed.

(** The result for every argument whose answer is representable: a power of
    two, at least [x], and below [2 * x]. *)
Lemma greater_power_of_two_spec x :
  1 <= x <= 2 ^ 31 ->
  exists k, 0 <= k <= 31 /\ myriota_greater_power_of_two x = 2 ^ k /\
            x <= 2 ^ k /\ 2 ^ k < 2 * x.
Proof.
  intros Hx. unfold myriota_greater_power_of_two.
  destruct (first_power_from_spec 32 0 x) as (j & Hj & Heq & Hge & Hlt);
    try (cbn; lia).
  change (2 ^ 0) with 1 in Heq.
  assert (Hj31 : j <= 31).
  { destruct (Z_le_gt_dec j 31) as [H|H]; [exact H|].
    assert (2 ^ 32 <= 2 ^ j) by (apply Z.pow_le_mono_r; lia). lia. }
  exists j. rewrite Heq. repeat split; try lia.
  apply wrap_uint_small. split; [apply Z.pow_nonneg; lia|].
  apply Z.pow_lt_mono_r; lia.
Qed.

(** Between a power of two and its double there is no other power of two. *)
Lemma power_of_two_minimal k x p :
  0 <= k -> 2 ^ k < 2 * x -> is_power_of_two p -> x <= p -> 2 ^ k <= p.
Proof.
  intros Hk Hlt (j & Hj & ->) Hle.
  destruct (Z_le_gt_dec k j) as [H|H].
  - apply Z.pow_le_mono_r; lia.
  - assert (2 ^ (j + 1) <= 2 ^ k) by (apply Z.pow_le_mono_r; lia).
    rewrite Z.pow_add_r in * by lia. lia.
Qed.

End PowerOfTwoFacts.
Import PowerOfTwoFacts.

(** ** The circular buffer *)
Module CircularBufferFacts.
Import CircularBuffer.
Section Elem.
Context {T : Type}.
Implicit Types (b : t T) (vs : list T) (ops : list (op T)) (n : Z).

Lemma constructor_wf c (init : T) :
  0 <= c < 2 ^ 31 -> wf (CircularBuffer c init).
Proof.
  intros Hc. unfold CircularBuffer, wf. cbn [size mask buf N].
  rewrite (wrap_uint_small (c + 1)) by lia.
  destruct (greater_power_of_two_spec (c + 1)) as (k & Hk & Heq & _); [lia|].
  exists k. rewrite Heq.
  assert (Hp : 0 < 2 ^ k) by (apply Z.pow_pos_nonneg; lia).
  assert (Hq : 2 ^ k < 2 ^ 32) by (apply Z.pow_lt_mono_r; lia).
  repeat split; try lia.
  - apply wrap_uint_small. lia.
  - apply length_replicate.
Qed.

(** The capacity the constructor chooses. *)
Lemma constructor_size c (init : T) :
  0 <= c < 2 ^ 31 ->
  exists k, 0 <= k <= 31 /\ size (CircularBuffer c init) = 2 ^ k /\
            c + 1 <= 2 ^ k /\ 2 ^ k < 2 * (c + 1).
Proof.
  intros Hc. unfold CircularBuffer. cbn [size].
  rewrite (wrap_uint_small (c + 1)) by lia.
  apply greater_power_of_two_spec. lia.
Qed.

Lemma push_wf b v : wf b -> wf (push b v).
Proof.
  intros (k & Hk & Hs & Hm & Hl & HN). exists k. unfold push. cbn [size mask buf N].
  repeat split; try lia; try apply wrap_uint64_range.
  rewrite length_insert. exact Hl.
Qed.

Lemma set_wf b n v b' : set b n v = Returns b' -> wf b -> wf b'.
Proof.
  unfold set. intros Hset (k & Hk & Hs & Hm & Hl & HN).
  destruct ((minn b <=? n) && (n <=? maxn b)); [|discriminate].
  destruct (_ <? _)%nat; [|discriminate].
  injection Hset as <-. exists k. cbn [size mask buf N].
  repeat split; try lia. rewrite length_insert. exact Hl.
Qed.

Lemma step_wf b o : wf b -> wf (step b o).
Proof.
  intros Hwf. destruct o as [v|n v]; cbn [step].
  - apply push_wf, Hwf.
  - destruct (set b n v) as [b'| |] eqn:E; try exact Hwf.
    eapply set_wf; eassumption.
Qed.

Lemma run_wf ops : forall b, wf b -> wf (run b ops).
Proof.
  induction ops as [|o ops IH]; intros b Hwf; [exact Hwf|].
  apply IH, step_wf, Hwf.
Qed.

Lemma set_size_N b n v b' :
  set b n v = Returns b' -> size b' = size b /\ N b' = N b.
Proof.
  unfold set. intros Hset.
  destruct ((minn b <=? n) && (n <=? maxn b)); [|discriminate].
  destruct (_ <? _)%nat; [|discriminate].
  injection Hset as <-. split; reflexivity.
Qed.

Lemma step_size b o : size (step b o) = size b.
Proof.
  destruct o as [v|n v]; cbn [step]; [reflexivity|].
  destruct (set b n v) as [b'| |] eqn:E; try reflexivity.
  apply set_size_N in E. tauto.
Qed.

Lemma run_size ops : forall b, size (run b ops) = size b.
Proof.
  induction ops as [|o ops IH]; intros b; [reflexivity|].
  cbn [run fold_left]. fold (run (step b o) ops).
  rewrite IH. apply step_size.
Qed.

(** Only pushes move the counter, each by one, in [uint64_t]. *)
Lemma step_N b o :
  N (step b o) = match o with Push _ => wrap_uint64 (N b + 1) | SetAt _ _ => N b end.
Proof.
  destruct o as [v|n v]; cbn [step]; [reflexivity|].
  destruct (set b n v) as [b'| |] eqn:E; try reflexivity.
  apply set_size_N in E. tauto.
Qed.

Lemma pushes_nonneg ops : 0 <= pushes ops.
Proof. induction ops as [|[v|n v] ops IH]; cbn [pushes]; lia. Qed.

Lemma run_N ops : forall b,
  0 <= N b < 2 ^ 64 -> N (run b ops) = wrap_uint64 (N b + pushes ops).
Proof.
  induction ops as [|o ops IH]; intros b HN.
  - cbn [run fold_left pushes]. rewrite Z.add_0_r, wrap_uint64_small; auto.
  - cbn [run fold_left]. fold (run (step b o) ops).
    rewrite IH, step_N.
    + destruct o as [v|n v]; cbn [pushes].
      * rewrite wrap_uint64_add_l. f_equal. lia.
      * reflexivity.
    + rewrite step_N. destruct o; [apply wrap_uint64_range|exact HN].
Qed.

(** The state after any run of calls on a fresh buffer. *)
Lemma run_constructor c (init : T) ops :
  0 <= c < 2 ^ 31 -> pushes ops < 2 ^ 63 ->
  let b := run (CircularBuffer c init) ops in
  wf b /\ size b = size (CircularBuffer c init) /\ N b = pushes ops.
Proof.
  intros Hc Hp b. subst b. split; [|split].
  - apply run_wf, constructor_wf, Hc.
  - apply run_size.
  - rewrite run_N by (cbn; lia). cbn [CircularBuffer N]. rewrite Z.add_0_l.
    apply wrap_uint64_small. pose proof (pushes_nonneg ops). lia.
Qed.

(** The bounds of a well-formed buffer that has seen fewer than 2^63
    pushes. *)
Lemma bounds_value b :
  wf b -> N b < 2 ^ 63 -> minn b = N b - size b /\ maxn b = N b - 1.
Proof.
  intros (k & Hk & Hs & Hm & Hl & HN) Hlt. unfold minn, maxn.
  assert (Hp : 0 < 2 ^ k) by (apply Z.pow_pos_nonneg; lia).
  assert (Hq : 2 ^ k <= 2 ^ 31) by (apply Z.pow_le_mono_r; lia).
  split; apply to_int64_wrap; lia.
Qed.

(** The slot of an index is the index modulo the capacity, inside [buf]. *)
Lemma slot_value b n :
  wf b -> Z.land n (mask b) = n mod size b /\
          (Z.to_nat (Z.land n (mask b)) < length (buf b))%nat.
Proof.
  intros (k & Hk & Hs & Hm & Hl & HN).
  assert (Hp : 0 < 2 ^ k) by (apply Z.pow_pos_nonneg; lia).
  rewrite Hm, Hs, Hl, land_mask by lia.
  split; [reflexivity|].
  pose proof (Z.mod_pos_bound n (2 ^ k) Hp). lia.
Qed.

Lemma read_is_Some b n : wf b -> exists v, read b n = Some v.
Proof.
  intros Hwf. destruct (slot_value b n Hwf) as [_ Hlt].
  unfold read. apply lookup_lt_is_Some_2 in Hlt. destruct Hlt as [v Hv].
  exists v. exact Hv.
Qed.

(** [at] inside and outside the window [minn, maxn]. *)
Lemma at_inside b n :
  wf b -> minn b <= n <= maxn b ->
  exists v, read b n = Some v /\ at_ b n = Returns v.
Proof.
  intros Hwf Hn. destruct (read_is_Some b n Hwf) as [v Hv].
  exists v. split; [exact Hv|]. unfold at_.
  replace ((minn b <=? n) && (n <=? maxn b)) with true
    by (symmetry; apply andb_true_iff; split; apply Z.leb_le; lia).
  rewrite Hv. reflexivity.
Qed.

Lemma at_outside b n :
  ~ (minn b <= n <= maxn b) ->
  at_ b n = Throws (out_of_range (what "at" b n)).
Proof.
  intros Hn. unfold at_.
  destruct (Z.leb_spec (minn b) n), (Z.leb_spec n (maxn b)); cbn [andb];
    try reflexivity. lia.
Qed.

Lemma set_outside b n v :
  ~ (minn b <= n <= maxn b) ->
  set b n v = Throws (out_of_range (what "set" b n)).
Proof.
  intros Hn. unfold set.
  destruct (Z.leb_spec (minn b) n), (Z.leb_spec n (maxn b)); cbn [andb];
    try reflexivity. lia.
Qed.

(** A checked write inside the window succeeds and is read back. *)
Lemma set_inside b n v :
  wf b -> minn b <= n <= maxn b ->
  exists b', set b n v = Returns b' /\ at_ b' n = Returns v /\
             minn b' = minn b /\ maxn b' = maxn b.
Proof.
  intros Hwf Hn. destruct (slot_value b n Hwf) as [_ Hlt].
  unfold set.
  replace ((minn b <=? n) && (n <=? maxn b)) with true
    by (symmetry; apply andb_true_iff; split; apply Z.leb_le; lia).
  cbn zeta. apply Nat.ltb_lt in Hlt as Hlt'. rewrite Hlt'.
  eexists. split; [reflexivity|]. split; [|split; reflexivity].
  unfold at_, minn, maxn, read. cbn [size mask buf N].
  fold (minn b). fold (maxn b).
  replace ((minn b <=? n) && (n <=? maxn b)) with true
    by (symmetry; apply andb_true_iff; split; apply Z.leb_le; lia).
  rewrite list_lookup_insert_eq by exact Hlt. reflexivity.
Qed.

(** What the store holds after the values [vs] have been pushed into a fresh
    buffer: at every index of the window the value pushed at that index, and
    the initial element at the negative ones. *)
Lemma push_all_contents c (init : T) vs :
  0 <= c < 2 ^ 31 -> Z.of_nat (length vs) < 2 ^ 63 ->
  let b := push_all (CircularBuffer c init) vs in
  wf b /\ size b = size (CircularBuffer c init) /\
  N b = Z.of_nat (length vs) /\
  forall n, N b - size b <= n < N b ->
            read b n = if n <? 0 then Some init else vs !! Z.to_nat n.
Proof.
  intros Hc. induction vs as [|v vs IH] using rev_ind; intros Hlen b.
  - subst b. cbn [push_all fold_left length]. split; [|split; [|split]].
    + apply constructor_wf, Hc.
    + reflexivity.
    + reflexivity.
    + intros n Hn. cbn [CircularBuffer N] in Hn.
      destruct (slot_value (CircularBuffer c init) n (constructor_wf c init Hc))
        as [_ Hlt].
      unfold read. cbn [CircularBuffer buf mask size] in *.
      rewrite length_replicate in Hlt.
      rewrite (lookup_replicate_2 _ _ _ Hlt).
      destruct (Z.ltb_spec n 0); [reflexivity|lia].
  - rewrite length_app in Hlen. cbn [length] in Hlen.
    destruct IH as (Hwf & Hsz & HN & Hread); [lia|].
    subst b. unfold push_all in *. rewrite fold_left_app. cbn [fold_left].
    set (b' := fold_left push vs (CircularBuffer c init)) in *.
    assert (HN' : N (push b' v) = Z.of_nat (length (vs ++ [v]))).
    { cbn [push N]. rewrite HN, length_app. cbn [length].
      rewrite wrap_uint64_small; lia. }
    split; [apply push_wf, Hwf|]. split; [exact Hsz|]. split; [exact HN'|].
    intros n Hn. rewrite HN', length_app in Hn. cbn [length size push] in Hn.
    destruct (slot_value b' n Hwf) as [Hsn Hltn].
    destruct (slot_value b' (N b') Hwf) as [HsN HltN].
    destruct Hwf as (k & Hk & Hs & Hm & Hl & HNr).
    assert (Hp : 0 < size b') by (rewrite Hs; apply Z.pow_pos_nonneg; lia).
    unfold read. cbn [push buf mask].
    destruct (Z.eq_dec n (N b')) as [->|Hne].
    + rewrite list_lookup_insert_eq by exact HltN.
      destruct (Z.ltb_spec (N b') 0); [lia|].
      rewrite HN, Nat2Z.id. symmetry. apply list_lookup_middle. reflexivity.
    + rewrite list_lookup_insert_ne.
      * fold (read b' n). rewrite Hread by lia.
        destruct (Z.ltb_spec n 0); [reflexivity|].
        symmetry. apply lookup_app_l. lia.
      * rewrite Hsn, HsN. intros Heq.
        apply Z2Nat.inj in Heq; try (apply Z.mod_pos_bound; exact Hp).
        symmetry in Heq. revert Heq. apply mod_apart; lia.
Qed.

End Elem.
End CircularBufferFacts.

(** ** The sample store: index window, checked access, round trip *)
Module SampleStore.
Import CircularBuffer CircularBufferFacts.

(** C6. A store constructed with a requested capacity [c] below 2^31 has as
    its capacity the smallest power of two that is at least [c + 1]: it is a
    power of two, it is at least [c + 1], and no power of two that is at
    least [c + 1] is smaller. A requested capacity of 10 gives 16. *)
Theorem capacity_rounding {T : Type} (c : Z) (init : T) :
  0 <= c < 2 ^ 31 ->
  let C := size (CircularBuffer c init) in
  is_power_of_two C /\ c + 1 <= C /\
  (forall p, is_power_of_two p -> c + 1 <= p -> C <= p) /\
  (c = 10 -> C = 16).
Proof.
  intros Hc C. subst C.
  destruct (constructor_size c init Hc) as (k & Hk & Heq & Hge & Hlt).
  rewrite Heq. split; [|split; [|split]].
  - exists k. split; [lia|reflexivity].
  - exact Hge.
  - intros p Hp Hle. eapply power_of_two_minimal; eauto. lia.
  - intros ->. rewrite <- Heq. reflexivity.
Qed.

Lemma capacity_rounding_witness :
  let C := size (CircularBuffer 10 0) in
  is_power_of_two C /\ 10 + 1 <= C /\
  (forall p, is_power_of_two p -> 10 + 1 <= p -> C <= p) /\
  (10 = 10 -> C = 16).
Proof.
  exact (capacity_rounding 10 0 ltac:(lia)).
Defined.

(** C1, as amended. After any calls on a fresh store, of which [N] (fewer
    than 2^63) are pushes, [minn()] is [N - C], a negative number while
    [N < C], and [maxn()] is [N - 1]; the checked read accepts exactly the
    indices of [[N - C, N - 1]]. *)
Theorem store_window {T : Type} (c : Z) (init : T) (ops : list (op T)) :
  0 <= c < 2 ^ 31 -> pushes ops < 2 ^ 63 ->
  let b := run (CircularBuffer c init) ops in
  pushed b = pushes ops /\
  minn b = pushes ops - size b /\
  maxn b = pushes ops - 1 /\
  forall n, (exists v, at_ b n = Returns v) <->
            pushes ops - size b <= n <= pushes ops - 1.
Proof.
  intros Hc Hp b.
  destruct (run_constructor c init ops Hc Hp) as (Hwf & Hsz & HN).
  fold b in Hwf, Hsz, HN.
  destruct (bounds_value b Hwf) as [Hmin Hmax]; [lia|].
  rewrite HN in Hmin, Hmax.
  split; [exact HN|]. split; [exact Hmin|]. split; [exact Hmax|].
  intros n. split.
  - intros [v Hv].
    destruct (Z_le_dec (minn b) n) as [H1|H1];
      [destruct (Z_le_dec n (maxn b)) as [H2|H2]|]; try lia;
      rewrite at_outside in Hv by lia; discriminate.
  - intros Hn. destruct (at_inside b n Hwf) as (v & _ & Hv); [lia|].
    exists v. exact Hv.
Qed.

Lemma store_window_witness :
  let b := run (CircularBuffer 10 0) [Push 7; SetAt 0 8; Push 9] in
  pushed b = 2 /\ minn b = 2 - size b /\ maxn b = 2 - 1 /\
  forall n, (exists v, at_ b n = Returns v) <-> 2 - size b <= n <= 2 - 1.
Proof.
  exact (store_window 10 0 [Push 7; SetAt 0 8; Push 9]
           ltac:(lia) ltac:(cbn; lia)).
Defined.

(** C1 as stated fails on a fresh store of requested capacity 10: nothing
    has been pushed, the capacity is 16, and [minn()] is -16, not
    [max(0, N - C) = 0]; index -1 is addressable. *)
Lemma store_window_not_clamped :
  let b := CircularBuffer 10 0 in
  pushed b = 0 /\ size b = 16 /\ minn b = -16 /\ maxn b = -1 /\
  minn b <> Z.max 0 (pushed b - size b) /\
  at_ b (-1) = Returns 0.
Proof.
  vm_compute. repeat split; discriminate.
Qed.

(** C2, as amended. On a store that has seen [N] pushes (fewer than 2^63),
    [at] and [set] throw [std::out_of_range], with a message that gives [n]
    and the window [[N - C, N - 1]], exactly when [n] is outside
    [[N - C, N - 1]]; inside it [at] returns the element of the slot and
    [set] stores the value, which [at] then reads back. *)
Theorem checked_access {T : Type} (c : Z) (init : T) (ops : list (op T))
    (n : Z) (v : T) :
  0 <= c < 2 ^ 31 -> pushes ops < 2 ^ 63 ->
  let b := run (CircularBuffer c init) ops in
  let lo := pushes ops - size b in
  let hi := pushes ops - 1 in
  (lo <= n <= hi ->
     (exists x, at_ b n = Returns x) /\
     (exists b', set b n v = Returns b' /\ at_ b' n = Returns v)) /\
  (~ (lo <= n <= hi) ->
     at_ b n = Throws (out_of_range
       ("circluar buffer at " +:+ pretty n +:+ " outside [" +:+
        pretty lo +:+ ", " +:+ pretty hi +:+ "]")) /\
     set b n v = Throws (out_of_range
       ("circluar buffer set " +:+ pretty n +:+ " outside [" +:+
        pretty lo +:+ ", " +:+ pretty hi +:+ "]"))).
Proof.
  intros Hc Hp b lo hi.
  destruct (run_constructor c init ops Hc Hp) as (Hwf & Hsz & HN).
  fold b in Hwf, Hsz, HN.
  destruct (bounds_value b Hwf) as [Hmin Hmax]; [lia|].
  rewrite HN in Hmin, Hmax. fold lo in Hmin. fold hi in Hmax.
  split.
  - intros Hn. split.
    + destruct (at_inside b n Hwf) as (x & _ & Hx); [lia|]. exists x. exact Hx.
    + destruct (set_inside b n v Hwf) as (b' & Hset & Hat & _); [lia|].
      exists b'. split; assumption.
  - intros Hn. rewrite at_outside, set_outside by lia.
    unfold what. rewrite Hmin, Hmax. split; reflexivity.
Qed.

Lemma checked_access_witness :
  let b := run (CircularBuffer 10 0) [Push 7; Push 9] in
  let lo := 2 - size b in
  let hi := 2 - 1 in
  (lo <= 5 <= hi ->
     (exists x, at_ b 5 = Returns x) /\
     (exists b', set b 5 3 = Returns b' /\ at_ b' 5 = Returns 3)) /\
  (~ (lo <= 5 <= hi) ->
     at_ b 5 = Throws (out_of_range
       ("circluar buffer at " +:+ pretty 5 +:+ " outside [" +:+
        pretty lo +:+ ", " +:+ pretty hi +:+ "]")) /\
     set b 5 3 = Throws (out_of_range
       ("circluar buffer set " +:+ pretty 5 +:+ " outside [" +:+
        pretty lo +:+ ", " +:+ pretty hi +:+ "]"))).
Proof.
  exact (checked_access 10 0 [Push 7; Push 9] 5 3 ltac:(lia) ltac:(cbn; lia)).
Defined.

(** C2 as stated fails on a fresh store of requested capacity 10: index -1
    is outside [[max(0, N - C), N - 1]], yet [at(-1)] does not throw and
    returns the initial element, and [set(-1, 5)] does not throw either. *)
Lemma checked_access_accepts_negative :
  let b := CircularBuffer 10 0 in
  ~ (Z.max 0 (pushed b - size b) <= -1 <= pushed b - 1) /\
  at_ b (-1) = Returns 0 /\
  exists b', set b (-1) 5 = Returns b'.
Proof.
  split; [vm_compute; intros [H _]; apply H; reflexivity|].
  split; [vm_compute; reflexivity|].
  eexists. vm_compute. reflexivity.
Qed.

(** C8, as amended. After the values [vs] ([N] of them, fewer than 2^63)
    have been pushed into a fresh store, a checked read of an index [n] in
    [[max(0, N - C), N - 1]] returns the value pushed at [n]; a checked read
    of an index in [[N - C, -1]] returns the initial element; a checked read
    of any index outside [[N - C, N - 1]] throws [std::out_of_range]. *)
Theorem round_trip {T : Type} (c : Z) (init : T) (vs : list T) (n : Z) :
  0 <= c < 2 ^ 31 -> Z.of_nat (length vs) < 2 ^ 63 ->
  let b := push_all (CircularBuffer c init) vs in
  let N := Z.of_nat (length vs) in
  (Z.max 0 (N - size b) <= n <= N - 1 ->
     exists v, vs !! Z.to_nat n = Some v /\ at_ b n = Returns v) /\
  (N - size b <= n <= -1 -> at_ b n = Returns init) /\
  (n < N - size b \/ N - 1 < n ->
     at_ b n = Throws (out_of_range (what "at" b n))).
Proof.
  intros Hc Hlen b N.
  destruct (push_all_contents c init vs Hc Hlen) as (Hwf & Hsz & HN & Hread).
  fold b in Hwf, Hsz, HN, Hread. fold N in HN.
  destruct (bounds_value b Hwf) as [Hmin Hmax]; [lia|].
  rewrite HN in Hmin, Hmax, Hread.
  split; [|split].
  - intros Hn. destruct (at_inside b n Hwf) as (v & Hv & Hat); [lia|].
    exists v. split; [|exact Hat].
    rewrite Hread in Hv by lia.
    destruct (Z.ltb_spec n 0); [lia|exact Hv].
  - intros Hn. destruct (at_inside b n Hwf) as (v & Hv & Hat); [lia|].
    rewrite Hread in Hv by lia.
    destruct (Z.ltb_spec n 0); [|lia]. injection Hv as ->. exact Hat.
  - intros Hn. apply at_outside. lia.
Qed.

Lemma round_trip_witness :
  let vs := [3; 1; 4; 1; 5; 9] in
  let b := push_all (CircularBuffer 2 0) vs in
  let N := Z.of_nat (length vs) in
  (Z.max 0 (N - size b) <= 4 <= N - 1 ->
     exists v, vs !! Z.to_nat 4 = Some v /\ at_ b 4 = Returns v) /\
  (N - size b <= 4 <= -1 -> at_ b 4 = Returns 0) /\
  (4 < N - size b \/ N - 1 < 4 ->
     at_ b 4 = Throws (out_of_range (what "at" b 4))).
Proof.
  exact (round_trip 2 0 [3; 1; 4; 1; 5; 9] 4 ltac:(lia) ltac:(cbn; lia)).
Defined.

(** C8 as stated fails after one push into a fresh store of requested
    capacity 10: index -1 lies in [[minn, maxn]] = [[-15, 0]] and below
    [max(0, N - C) = 0], the checked read of it does not throw, and what it
    returns is the initial element 0, which is not the pushed value 7. *)
Lemma round_trip_reads_initial_element :
  let vs := [7] in
  let b := push_all (CircularBuffer 10 0) vs in
  minn b = -15 /\ maxn b = 0 /\
  -1 < Z.max 0 (Z.of_nat (length vs) - size b) /\
  at_ b (-1) = Returns 0 /\
  ~ In 0 vs.
Proof.
  vm_compute. repeat split; try discriminate. intros [H|[]]. discriminate.
Qed.

End SampleStore.

(** ** The resamplers: the window of computable output indices *)
Module ResamplerFacts.
Import CircularBufferFacts.
Section Ops.
Context {D : Type} `{DoubleOps D}.

(** Pushing into a resampler pushes into its store and changes nothing
    else. *)
Lemma upsampler_push_all (xs : list (D * D)) : forall u : Upsampler.t D,
  Upsampler.a (Upsampler.push_all u xs) =
    CircularBuffer.push_all (Upsampler.a u) xs /\
  Upsampler.gamma (Upsampler.push_all u xs) = Upsampler.gamma u /\
  Upsampler.W (Upsampler.push_all u xs) = Upsampler.W u.
Proof.
  induction xs as [|x xs IH]; intros u; [repeat split|].
  cbn [Upsampler.push_all CircularBuffer.push_all fold_left].
  destruct (IH (Upsampler.push u x)) as (Ha & Hg & Hw).
  unfold Upsampler.push_all, CircularBuffer.push_all in *.
  rewrite Ha, Hg, Hw. repeat split.
Qed.

Lemma downsampler_push_all (xs : list (D * D)) : forall u : Downsampler.t D,
  Downsampler.a (Downsampler.push_all u xs) =
    CircularBuffer.push_all (Downsampler.a u) xs /\
  Downsampler.gamma (Downsampler.push_all u xs) = Downsampler.gamma u /\
  Downsampler.W (Downsampler.push_all u xs) = Downsampler.W u.
Proof.
  induction xs as [|x xs IH]; intros u; [repeat split|].
  cbn [Downsampler.push_all CircularBuffer.push_all fold_left].
  destruct (IH (Downsampler.push u x)) as (Ha & Hg & Hw).
  unfold Downsampler.push_all, CircularBuffer.push_all in *.
  rewrite Ha, Hg, Hw. repeat split.
Qed.

(** The store of a resampler after [xs] have been pushed: its largest index
    is [length xs - 1], and the two [int64_t] differences the window bounds
    start from do not wrap. *)
Lemma store_after_pushes (c : Z) (init : D * D) (xs : list (D * D)) :
  0 <= c < 2 ^ 31 -> Z.of_nat (length xs) < 2 ^ 63 ->
  let s := CircularBuffer.push_all (CircularBuffer.CircularBuffer c init) xs in
  CircularBuffer.size s = CircularBuffer.size (CircularBuffer.CircularBuffer c init) /\
  CircularBuffer.pushed s = Z.of_nat (length xs) /\
  CircularBuffer.maxn s = Z.of_nat (length xs) - 1 /\
  to_int64 (CircularBuffer.maxn s - CircularBuffer.size s) =
    CircularBuffer.maxn s - CircularBuffer.size s /\
  to_int64 (CircularBuffer.maxn s - 1) = CircularBuffer.maxn s - 1.
Proof.
  intros Hc Hlen s.
  destruct (push_all_contents c init xs Hc Hlen) as (Hwf & Hsz & HN & _).
  fold s in Hwf, Hsz, HN.
  destruct (bounds_value s Hwf) as [_ Hmax]; [lia|].
  destruct (constructor_size c init Hc) as (k & Hk & Heq & _).
  assert (Hq : 2 ^ k <= 2 ^ 31) by (apply Z.pow_le_mono_r; lia).
  assert (Hp : 0 < 2 ^ k) by (apply Z.pow_pos_nonneg; lia).
  rewrite Hmax, HN, Hsz, Heq. unfold CircularBuffer.pushed.
  repeat split; try assumption; apply to_int64_small; lia.
Qed.

(** Before any push the largest index of the store is -1, which gives the
    window bounds of both resamplers in terms of the capacity. *)
Lemma construction_bounds (g w : D) (c : Z) (init : D * D) :
  0 <= c < 2 ^ 31 ->
  let u := Upsampler.make g w c init in
  let d := Downsampler.make g w c init in
  let C := CircularBuffer.size (CircularBuffer.CircularBuffer c init) in
  Upsampler.pushed u = 0 /\ Downsampler.pushed d = 0 /\
  CircularBuffer.maxn (Upsampler.a u) = -1 /\
  CircularBuffer.maxn (Downsampler.a d) = -1 /\
  Upsampler.minn u = ceil_int64 (dmul g (dadd (of_int64 (-1 - C)) w)) /\
  Upsampler.maxn u = floor_int64 (dmul g (dsub (of_int64 (-2)) w)) /\
  Downsampler.minn d = ceil_int64 (dadd (dmul g (of_int64 (-1 - C))) w) /\
  Downsampler.maxn d = floor_int64 (dsub (dmul g (of_int64 (-2))) w).
Proof.
  intros Hc u d C.
  destruct (store_after_pushes c init [] Hc) as (_ & _ & Hmax & H1 & H2);
    [cbn; lia|].
  cbn [CircularBuffer.push_all fold_left length] in Hmax, H1, H2.
  change (Z.of_nat 0 - 1) with (-1) in Hmax.
  fold C in H1. rewrite Hmax in H1, H2. change (-1 - 1) with (-2) in H2.
  unfold Upsampler.minn, Upsampler.maxn, Downsampler.minn, Downsampler.maxn,
    Upsampler.pushed, Downsampler.pushed.
  subst u d. cbn [Upsampler.make Upsampler.a Upsampler.gamma Upsampler.W
                  Downsampler.make Downsampler.a Downsampler.gamma
                  Downsampler.W].
  fold C. rewrite Hmax. change (-1 - 1) with (-2). rewrite H1, H2.
  repeat split; reflexivity.
Qed.


(** The window bounds after [xs] have been pushed, in terms of the number of
    pushes and the capacity. *)
Lemma upsampler_bounds (g w : D) (c : Z) (init : D * D) (xs : list (D * D)) :
  0 <= c < 2 ^ 31 -> Z.of_nat (length xs) < 2 ^ 63 ->
  let u := Upsampler.push_all (Upsampler.make g w c init) xs in
  let C := CircularBuffer.size (CircularBuffer.CircularBuffer c init) in
  let N := Z.of_nat (length xs) in
  Upsampler.minn u = ceil_int64 (dmul g (dadd (of_int64 (N - 1 - C)) w)) /\
  Upsampler.maxn u = floor_int64 (dmul g (dsub (of_int64 (N - 1 - 1)) w)).
Proof.
  intros Hc Hlen u C N.
  destruct (upsampler_push_all xs (Upsampler.make g w c init)) as (Ha & Hg & Hw).
  fold u in Ha, Hg, Hw.
  cbn [Upsampler.make Upsampler.a Upsampler.gamma Upsampler.W] in Ha, Hg, Hw.
  destruct (store_after_pushes c init xs Hc Hlen) as (Hsz & _ & Hmax & H1 & H2).
  rewrite <- Ha in Hsz, Hmax, H1, H2. fold C in Hsz. fold N in Hmax.
  unfold Upsampler.minn, Upsampler.maxn.
  rewrite H1, H2, Hg, Hw, Hmax, Hsz. split; reflexivity.
Qed.

Lemma downsampler_bounds (g w : D) (c : Z) (init : D * D) (xs : list (D * D)) :
  0 <= c < 2 ^ 31 -> Z.of_nat (length xs) < 2 ^ 63 ->
  let u := Downsampler.push_all (Downsampler.make g w c init) xs in
  let C := CircularBuffer.size (CircularBuffer.CircularBuffer c init) in
  let N := Z.of_nat (length xs) in
  Downsampler.minn u = ceil_int64 (dadd (dmul g (of_int64 (N - 1 - C))) w) /\
  Downsampler.maxn u = floor_int64 (dsub (dmul g (of_int64 (N - 1 - 1))) w).
Proof.
  intros Hc Hlen u C N.
  destruct (downsampler_push_all xs (Downsampler.make g w c init)) as (Ha & Hg & Hw).
  fold u in Ha, Hg, Hw.
  cbn [Downsampler.make Downsampler.a Downsampler.gamma Downsampler.W] in Ha, Hg, Hw.
  destruct (store_after_pushes c init xs Hc Hlen) as (Hsz & _ & Hmax & H1 & H2).
  rewrite <- Ha in Hsz, Hmax, H1, H2. fold C in Hsz. fold N in Hmax.
  unfold Downsampler.minn, Downsampler.maxn.
  rewrite H1, H2, Hg, Hw, Hmax, Hsz. split; reflexivity.
Qed.

End Ops.

End ResamplerFacts.

Module Resampler.
Import ResamplerFacts.

(** C7. At every state of an upsampler reached by pushing fewer than 2^63
    samples, [minn()] is [ceil(gamma * (store.maxIndex - capacity + W))] and
    [maxn()] is [floor(gamma * (store.maxIndex - 1 - W))], with
    [store.maxIndex = pushed() - 1] the largest valid index of the store;
    [gamma] and [W] are those of the construction. *)
Theorem upsampler_window {D : Type} `{DoubleOps D} (g w : D) (c : Z)
    (init : D * D) (xs : list (D * D)) :
  0 <= c < 2 ^ 31 -> Z.of_nat (length xs) < 2 ^ 63 ->
  let u := Upsampler.push_all (Upsampler.make g w c init) xs in
  let store := Upsampler.a u in
  Upsampler.gamma u = g /\ Upsampler.W u = w /\
  CircularBuffer.maxn store = Upsampler.pushed u - 1 /\
  Upsampler.minn u =
    Upsampler.spec_minIndex g w (CircularBuffer.maxn store)
                            (CircularBuffer.size store) /\
  Upsampler.maxn u =
    Upsampler.spec_maxIndex g w (CircularBuffer.maxn store).
Proof.
  intros Hc Hlen u store.
  destruct (upsampler_push_all xs (Upsampler.make g w c init)) as (Ha & Hg & Hw).
  fold u in Ha, Hg, Hw. cbn [Upsampler.make Upsampler.a Upsampler.gamma Upsampler.W] in Ha, Hg, Hw.
  destruct (store_after_pushes c init xs Hc Hlen) as (Hsz & HN & Hmax & H1 & H2).
  rewrite <- Ha in Hsz, HN, Hmax, H1, H2. fold store in Hsz, HN, Hmax, H1, H2.
  split; [exact Hg|]. split; [exact Hw|]. split.
  - unfold Upsampler.pushed. fold store. lia.
  - unfold Upsampler.minn, Upsampler.maxn, Upsampler.spec_minIndex,
      Upsampler.spec_maxIndex. fold store.
    rewrite H1, H2, Hg, Hw.
    split; reflexivity.
Qed.

Lemma upsampler_window_witness :
  let u := Upsampler.push_all
             (Upsampler.make 2%float 30%float 63 (0%float, 0%float))
             [(1%float, 0%float); (0%float, 1%float)] in
  let store := Upsampler.a u in
  Upsampler.gamma u = 2%float /\ Upsampler.W u = 30%float /\
  CircularBuffer.maxn store = Upsampler.pushed u - 1 /\
  Upsampler.minn u =
    Upsampler.spec_minIndex 2%float 30%float (CircularBuffer.maxn store)
                            (CircularBuffer.size store) /\
  Upsampler.maxn u =
    Upsampler.spec_maxIndex 2%float 30%float (CircularBuffer.maxn store).
Proof.
  exact (upsampler_window 2%float 30%float 63 (0%float, 0%float)
           [(1%float, 0%float); (0%float, 1%float)]
           ltac:(lia) ltac:(cbn; lia)).
Defined.

(** An example in double precision. Were the constructors to set up an
    upsampler with [gamma = 2], [W = 30] and a store of capacity 64, its
    window before any push would be [[-70, -64]], and a downsampler with
    [gamma = 1/2], [W = 30] and a store of capacity 256 would have the window
    [[-98, -31]]: neither is empty. Which values the constructors choose is
    not in the sources. *)
Lemma window_not_empty_at_construction :
  let zero := (0%float, 0%float) in
  let u := Upsampler.make 2%float 30%float 63 zero in
  let d := Downsampler.make 0.5%float 30%float 255 zero in
  Upsampler.pushed u = 0 /\
  CircularBuffer.size (Upsampler.a u) = 64 /\
  Upsampler.minn u = Some (-70) /\ Upsampler.maxn u = Some (-64) /\
  ~ window_empty (Upsampler.minn u) (Upsampler.maxn u) /\
  Downsampler.pushed d = 0 /\
  CircularBuffer.size (Downsampler.a d) = 256 /\
  Downsampler.minn d = Some (-98) /\ Downsampler.maxn d = Some (-31) /\
  ~ window_empty (Downsampler.minn d) (Downsampler.maxn d).
Proof.
  cbv zeta.
  assert (Hu : Upsampler.minn (Upsampler.make 2%float 30%float 63 (0%float, 0%float)) = Some (-70)
               /\ Upsampler.maxn (Upsampler.make 2%float 30%float 63 (0%float, 0%float)) = Some (-64))
    by (split; vm_compute; reflexivity).
  assert (Hd : Downsampler.minn (Downsampler.make 0.5%float 30%float 255 (0%float, 0%float)) = Some (-98)
               /\ Downsampler.maxn (Downsampler.make 0.5%float 30%float 255 (0%float, 0%float)) = Some (-31))
    by (split; vm_compute; reflexivity).
  destruct Hu as [Hu1 Hu2], Hd as [Hd1 Hd2]. rewrite Hu1, Hu2, Hd1, Hd2.
  repeat split; try (vm_compute; reflexivity);
    intros (l & h & Hl & Hh & Hlt); injection Hl as <-; injection Hh as <-; lia.
Qed.

End Resampler.

(** ** Rational numbers *)
Module RationalFacts.
Import Rational.

(** The reducer gives a pair in lowest terms with a positive denominator
    whenever the denominator it is given is not zero. *)
Lemma make_reduced a b : b <> 0 -> reduced (make_myriota_rational a b).
Proof.
  intros Hb. unfold make_myriota_rational, reduced, gcd. cbn [p q].
  set (g := Z.gcd a b).
  assert (Hg0 : g <> 0).
  { unfold g. intros Hg. apply Z.gcd_eq_0 in Hg. lia. }
  assert (Hgpos : 0 < g) by (pose proof (Z.gcd_nonneg a b); unfold g in *; lia).
  assert (Hcop : Z.gcd (a / g) (b / g) = 1)
    by (apply Z.gcd_div_gcd; [exact Hg0|reflexivity]).
  destruct (Z.gcd_divide_r a b) as [b' Hb']. fold g in Hb'.
  assert (Hdiv : b / g = b') by (rewrite Hb'; apply Z.div_mul; exact Hg0).
  rewrite Hdiv in *.
  destruct (Z.ltb_spec b 0) as [Hneg|Hpos].
  - replace (-1 * (a / g)) with (- (a / g)) by lia.
    replace (-1 * b') with (- b') by lia.
    rewrite Z.gcd_abs_l, Z.gcd_opp_l, Z.gcd_opp_r. split; [exact Hcop|nia].
  - rewrite !Z.mul_1_l, Z.gcd_abs_l. split; [exact Hcop|nia].
Qed.

Lemma sum_reduced r s :
  reduced r -> reduced s -> reduced (myriota_rational_sum r s).
Proof.
  intros [_ Hr] [_ Hs]. unfold myriota_rational_sum.
  apply make_reduced. nia.
Qed.

(** The fractional part of a number lies in [0, 1). *)
Lemma fractional_part_range (x : Q) :
  (0 <= x - inject_Z (Qfloor x) < 1)%Q.
Proof.
  pose proof (Qfloor_le x) as Hlo. pose proof (Qlt_floor x) as Hhi.
  rewrite inject_Z_plus in Hhi. change (inject_Z 1) with 1%Q in Hhi.
  split; lra.
Qed.

(** The reciprocal of a fractional part that is not zero is at least 1. *)
Lemma fractional_part_inverse (x : Q) :
  ~ (x - inject_Z (Qfloor x) == 0)%Q ->
  (1 <= / (x - inject_Z (Qfloor x)))%Q.
Proof.
  intros Hne. destruct (fractional_part_range x) as [H0 H1].
  apply Qle_shift_inv_l.
  - destruct (Qle_lt_or_eq _ _ H0) as [Hpos|Heq]; [exact Hpos|].
    exfalso. apply Hne. symmetry. exact Heq.
  - lra.
Qed.

(** The partial quotients of a number that is at least 1 are all at least
    1. *)
Lemma continued_fraction_pos size : forall x : Q,
  (1 <= x)%Q -> Forall (fun a => 1 <= a) (myriota_continued_fraction size x).
Proof.
  induction size as [|size IH]; intros x Hx; [constructor|].
  cbn [myriota_continued_fraction]. constructor.
  - rewrite <- (Qfloor_Z 1). apply Qfloor_resp_le. exact Hx.
  - destruct (Qeq_bool (x - inject_Z (Qfloor x)) 0) eqn:E; [constructor|].
    apply Qeq_bool_neq in E. apply IH, fractional_part_inverse, E.
Qed.

(** Hence every partial quotient after the first is at least 1. *)
Lemma continued_fraction_tail_pos size (x : Q) :
  Forall (fun a => 1 <= a) (tail (myriota_continued_fraction size x)).
Proof.
  destruct size as [|size]; [constructor|].
  cbn [myriota_continued_fraction tail].
  destruct (Qeq_bool (x - inject_Z (Qfloor x)) 0) eqn:E; [constructor|].
  apply Qeq_bool_neq in E.
  apply continued_fraction_pos, fractional_part_inverse, E.
Qed.

(** The expansion of [size + 1] terms is not empty. *)
Lemma continued_fraction_nonempty size (x : Q) :
  myriota_continued_fraction (S size) x <> [].
Proof. cbn [myriota_continued_fraction]. discriminate. Qed.

(** The recurrence keeps denominators positive. *)
Lemma convergents_from_den cf : forall h1 k1 h2 k2,
  1 <= k1 -> 0 <= k2 -> Forall (fun a => 1 <= a) cf ->
  Forall (fun hk => 1 <= snd hk) (convergents_from h1 k1 h2 k2 cf).
Proof.
  induction cf as [|a cf IH]; intros h1 k1 h2 k2 Hk1 Hk2 Hcf; [constructor|].
  inversion Hcf as [|? ? Ha Hrest]; subst.
  cbn [convergents_from]. constructor.
  - cbn [snd]. nia.
  - apply IH; [nia|lia|exact Hrest].
Qed.

Lemma convergents_den cf :
  Forall (fun a => 1 <= a) (tail cf) ->
  Forall (fun hk => 1 <= snd hk) (convergents cf).
Proof.
  destruct cf as [|a cf]; intros Hcf; [constructor|].
  unfold convergents. cbn [convergents_from tail] in *. constructor.
  - cbn [snd]. lia.
  - apply convergents_from_den; [lia|lia|exact Hcf].
Qed.

Lemma convergents_from_length cf : forall h1 k1 h2 k2,
  length (convergents_from h1 k1 h2 k2 cf) = length cf.
Proof.
  induction cf as [|a cf IH]; intros; [reflexivity|].
  cbn [convergents_from length]. f_equal. apply IH.
Qed.

(** Every best approximation is in lowest terms with a positive
    denominator, and there is one as soon as one is asked for. *)
Lemma best_approximations_reduced (x : Q) (size : nat) :
  Forall reduced (myriota_best_approximations x size).
Proof.
  unfold myriota_best_approximations. apply Forall_map.
  eapply Forall_impl; [apply convergents_den, continued_fraction_tail_pos|].
  intros [h k] Hk. cbn [fst snd] in *. apply make_reduced. lia.
Qed.

Lemma best_approximations_nonempty (x : Q) (size : nat) :
  size <> O -> myriota_best_approximations x size <> [].
Proof.
  intros Hs. destruct size as [|size]; [congruence|].
  unfold myriota_best_approximations, convergents.
  intros Hnil. apply (f_equal (@length _)) in Hnil.
  rewrite length_map, convergents_from_length in Hnil.
  cbn [myriota_continued_fraction length] in Hnil. discriminate.
Qed.

(** The rational approximation, whichever convergent is chosen. *)
Lemma rational_approximation_reduced choose (x tol : Q) (qmax : Z) (k : nat) :
  k <> O ->
  exists r, myriota_rational_approximation choose x tol qmax k = Some r /\
            reduced r.
Proof.
  intros Hk. unfold myriota_rational_approximation.
  pose proof (best_approximations_nonempty x k Hk) as Hne.
  pose proof (best_approximations_reduced x k) as Hred.
  set (b := myriota_best_approximations x k) in *.
  assert (Hlt : (Nat.min (choose x tol qmax b) (Nat.pred (length b)) < length b)%nat).
  { destruct b as [|r b]; [congruence|]. cbn [length Nat.pred]. lia. }
  apply lookup_lt_is_Some_2 in Hlt. destruct Hlt as [r Hr].
  exists r. split; [exact Hr|].
  rewrite Forall_lookup in Hred. eapply Hred, Hr.
Qed.

(** The first four best approximations of [pi], and the first of them that
    is within 1e-6 of it: 355/113. *)
Lemma pi_best_approximations :
  myriota_best_approximations pi 4 =
    [ {| p := 3; q := 1 |}; {| p := 22; q := 7 |};
      {| p := 333; q := 106 |}; {| p := 355; q := 113 |} ].
Proof. vm_compute. reflexivity. Qed.

Lemma pi_within_tolerance :
  (Qabs (pi - (355 # 113)) < 1 # 1000000)%Q /\
  ~ (Qabs (pi - (333 # 106)) < 1 # 1000000)%Q.
Proof.
  split.
  - vm_compute. reflexivity.
  - intros Hlt. vm_compute in Hlt. discriminate.
Qed.

End RationalFacts.

Module Rationals.
Import Rational RationalFacts.

(** C5. Every rational the library's operations produce is in lowest terms
    and has a positive denominator, [gcd(|p|, q) = 1] and [q > 0]: the
    result of [make_myriota_rational] on a denominator that is not zero, the
    sum of two such rationals, each of the best approximations of a number,
    and the rational approximation of a number from at least one
    convergent. *)
Theorem rationals_reduced (a b : Z) (r s : myriota_rational) (x tol : Q)
    (qmax : Z) (k : nat)
    (choose : Q -> Q -> Z -> list myriota_rational -> nat) :
  b <> 0 -> reduced r -> reduced s -> k <> O ->
  reduced (make_myriota_rational a b) /\
  reduced (myriota_rational_sum r s) /\
  (myriota_best_approximations x k <> [] /\
   forall t, In t (myriota_best_approximations x k) -> reduced t) /\
  exists t, myriota_rational_approximation choose x tol qmax k = Some t /\
            reduced t.
Proof.
  intros Hb Hr Hs Hk. split; [|split; [|split]].
  - apply make_reduced, Hb.
  - apply sum_reduced; assumption.
  - split; [apply best_approximations_nonempty, Hk|].
    intros t Ht. pose proof (best_approximations_reduced x k) as Hred.
    rewrite List.Forall_forall in Hred. apply Hred, Ht.
  - apply rational_approximation_reduced, Hk.
Qed.

Lemma rationals_reduced_witness :
  let x := pi in
  let r := {| p := 1; q := 2 |} in
  let s := {| p := -1; q := 6 |} in
  let choose := fun (_ _ : Q) (_ : Z) (_ : list myriota_rational) => 3%nat in
  reduced (make_myriota_rational 6 (-4)) /\
  reduced (myriota_rational_sum r s) /\
  (myriota_best_approximations x 4 <> [] /\
   forall t, In t (myriota_best_approximations x 4) -> reduced t) /\
  exists t, myriota_rational_approximation choose x (1 # 1000000) 113 4 = Some t /\
            reduced t.
Proof.
  refine (rationals_reduced 6 (-4) {| p := 1; q := 2 |} {| p := -1; q := 6 |}
            pi (1 # 1000000)%Q
            113 4 (fun _ _ _ _ => 3%nat) _ _ _ _).
  - discriminate.
  - split; [reflexivity|reflexivity].
  - split; [reflexivity|reflexivity].
  - discriminate.
Defined.

End Rationals.

(** ** More on the circular buffer: how the calls compose *)
Module StoreFacts.
Import CircularBuffer CircularBufferFacts.
Section Elem.
Context {T : Type}.
Implicit Types (b : t T) (ops : list (op T)) (h : WriteHistory.t T) (n : Z).

(** The slots of two different indices of one window differ. *)
Lemma slots_differ b n m :
  wf b -> n <> m -> Z.abs (n - m) < size b ->
  Z.to_nat (Z.land n (mask b)) <> Z.to_nat (Z.land m (mask b)).
Proof.
  intros Hwf Hne Hclose.
  destruct (slot_value b n Hwf) as [Hn _].
  destruct (slot_value b m Hwf) as [Hm _].
  destruct Hwf as (k & Hk & Hs & _).
  assert (Hp : 0 < size b) by (rewrite Hs; apply Z.pow_pos_nonneg; lia).
  rewrite Hn, Hm. intros Heq.
  apply Z2Nat.inj in Heq; try (apply Z.mod_pos_bound; exact Hp).
  destruct (Z_lt_le_dec n m) as [Hlt|Hge].
  - revert Heq. apply mod_apart; lia.
  - symmetry in Heq. revert Heq. apply mod_apart; lia.
Qed.

(** What a push does to the unchecked read. *)
Lemma read_push b v n :
  wf b -> Z.abs (n - N b) < size b ->
  read (push b v) n = if n =? N b then Some v else read b n.
Proof.
  intros Hwf Hclose. unfold read. cbn [push buf mask].
  destruct (slot_value b (N b) Hwf) as [_ Hlt].
  destruct (Z.eqb_spec n (N b)) as [->|Hne].
  - apply list_lookup_insert_eq. exact Hlt.
  - apply list_lookup_insert_ne. apply not_eq_sym, slots_differ; assumption.
Qed.

(** What an accepted [set] does to the unchecked read. *)
Lemma read_set b n v b' m :
  wf b -> set b n v = Returns b' -> Z.abs (m - n) < size b ->
  read b' m = if m =? n then Some v else read b m.
Proof.
  intros Hwf Hset Hclose. unfold set in Hset.
  destruct ((minn b <=? n) && (n <=? maxn b)); [|discriminate].
  cbn zeta in Hset.
  destruct (Nat.ltb_spec (Z.to_nat (Z.land n (mask b))) (length (buf b)))
    as [Hlt|]; [|discriminate].
  injection Hset as <-. unfold read. cbn [buf mask].
  destruct (Z.eqb_spec m n) as [->|Hne].
  - apply list_lookup_insert_eq. exact Hlt.
  - apply list_lookup_insert_ne. apply not_eq_sym, slots_differ; assumption.
Qed.

(** A [set] is accepted exactly inside the window. *)
Lemma set_accepts b n v :
  wf b -> (exists b', set b n v = Returns b') <-> minn b <= n <= maxn b.
Proof.
  intros Hwf. split.
  - intros [b' Hset].
    destruct (Z_le_dec (minn b) n) as [H1|H1];
      [destruct (Z_le_dec n (maxn b)) as [H2|H2]|]; try lia;
      rewrite set_outside in Hset by lia; discriminate.
  - intros Hn. destruct (set_inside b n v Hwf Hn) as (b' & Hset & _).
    exists b'. exact Hset.
Qed.

(** One call keeps the store in step with the record of writes. *)
Lemma step_history b h o :
  wf b -> N b = WriteHistory.count h -> 0 <= N b < 2 ^ 63 ->
  (forall n, N b - size b <= n <= N b - 1 ->
             read b n = Some (WriteHistory.last h n)) ->
  let b' := step b o in
  let h' := WriteHistory.record (size b) h o in
  N b' = WriteHistory.count h' /\
  forall n, N b' - size b <= n <= N b' - 1 ->
            read b' n = Some (WriteHistory.last h' n).
Proof.
  intros Hwf HN Hrange Hread b' h'. subst b' h'.
  destruct (bounds_value b Hwf) as [Hmin Hmax]; [lia|].
  destruct o as [v|n0 v]; cbn [step WriteHistory.record].
  - cbn [push N WriteHistory.count WriteHistory.last].
    rewrite wrap_uint64_small by lia. split; [lia|].
    intros n Hn. fold (push b v).
    rewrite read_push by (try assumption; lia). rewrite <- HN.
    destruct (Z.eqb_spec n (N b)); [reflexivity|]. apply Hread. lia.
  - rewrite <- HN, <- Hmin, <- Hmax.
    destruct (Z.leb_spec (minn b) n0) as [H1|H1];
      [destruct (Z.leb_spec n0 (maxn b)) as [H2|H2]|]; cbn [andb].
    + destruct (set_inside b n0 v Hwf) as (b1 & Hset & _); [lia|].
      rewrite Hset. destruct (set_size_N b n0 v b1 Hset) as [_ HN1].
      cbn [WriteHistory.count WriteHistory.last]. rewrite HN1.
      split; [congruence|]. intros n Hn.
      rewrite (read_set b n0 v b1 n Hwf Hset) by lia.
      destruct (Z.eqb_spec n n0); [reflexivity|]. apply Hread. lia.
    + rewrite set_outside by lia. split; [congruence|exact Hread].
    + rewrite set_outside by lia. split; [congruence|exact Hread].
Qed.

(** A whole run keeps the store in step with the record of writes. *)
Lemma run_history ops : forall b h,
  wf b -> N b = WriteHistory.count h -> 0 <= N b ->
  N b + pushes ops < 2 ^ 63 ->
  (forall n, N b - size b <= n <= N b - 1 ->
             read b n = Some (WriteHistory.last h n)) ->
  let b' := run b ops in
  let h' := fold_left (WriteHistory.record (size b)) ops h in
  N b' = WriteHistory.count h' /\
  forall n, N b' - size b <= n <= N b' - 1 ->
            read b' n = Some (WriteHistory.last h' n).
Proof.
  induction ops as [|o ops IH]; intros b h Hwf HN H0 Hlt Hread.
  - cbn. split; [exact HN|exact Hread].
  - cbn [run fold_left]. fold (run (step b o) ops).
    pose proof (pushes_nonneg ops) as Hp.
    assert (Hb : 0 <= N b < 2 ^ 63) by (destruct o; cbn [pushes] in Hlt; lia).
    destruct (step_history b h o Hwf HN Hb Hread) as [HN1 Hread1].
    pose proof (step_size b o) as Hsz. pose proof (step_N b o) as HNs.
    specialize (IH (step b o) (WriteHistory.record (size b) h o)).
    rewrite Hsz in IH. apply IH.
    + apply step_wf, Hwf.
    + exact HN1.
    + rewrite HNs. destruct o; [rewrite wrap_uint64_small|]; lia.
    + rewrite HNs.
      destruct o; cbn [pushes] in Hlt; [rewrite wrap_uint64_small|]; lia.
    + exact Hread1.
Qed.

End Elem.
End StoreFacts.

Module SampleStoreMore.
Import CircularBuffer CircularBufferFacts StoreFacts.

(** X1. After any run of [push] and [set] calls on a fresh store (fewer than
    2^63 pushes), the checked read of an index of the window returns the
    value that the latest push or accepted [set] wrote at that index, and
    the initial element where nothing was written. *)
Theorem read_returns_last_write {T : Type} (c : Z) (init : T)
    (ops : list (op T)) (n : Z) :
  0 <= c < 2 ^ 31 -> pushes ops < 2 ^ 63 ->
  let b := run (CircularBuffer c init) ops in
  let h := WriteHistory.of_run (size b) init ops in
  pushed b = WriteHistory.count h /\
  (pushed b - size b <= n <= pushed b - 1 ->
   at_ b n = Returns (WriteHistory.last h n)).
Proof.
  intros Hc Hp b h.
  pose proof (constructor_wf c init Hc) as Hwf0.
  destruct (push_all_contents c init [] Hc) as (_ & _ & _ & Hread0);
    [cbn; lia|].
  cbn [push_all fold_left length] in Hread0.
  destruct (run_history ops (CircularBuffer c init) (WriteHistory.start init))
    as [HN Hread]; try assumption; try reflexivity; try (cbn; lia).
  { intros m Hm. rewrite Hread0 by lia.
    destruct (Z.ltb_spec m 0); [reflexivity|cbn [CircularBuffer N] in Hm; lia]. }
  destruct (run_constructor c init ops Hc Hp) as (Hwf & Hsz & HNp).
  fold b in HN, Hread, Hwf, Hsz, HNp. subst h.
  unfold WriteHistory.of_run. rewrite Hsz. unfold pushed.
  split; [exact HN|]. intros Hn.
  destruct (bounds_value b Hwf) as [Hmin Hmax]; [lia|].
  destruct (at_inside b n Hwf) as (v & Hv & Hat); [lia|].
  rewrite Hread in Hv by lia. injection Hv as <-. exact Hat.
Qed.

Lemma read_returns_last_write_witness :
  let ops := [Push 7; Push 9; SetAt 0 8; SetAt (-3) 5; SetAt 40 1; Push 2] in
  let b := run (CircularBuffer 10 0) ops in
  let h := WriteHistory.of_run (size b) 0 ops in
  pushed b = WriteHistory.count h /\
  (pushed b - size b <= 0 <= pushed b - 1 ->
   at_ b 0 = Returns (WriteHistory.last h 0)).
Proof.
  exact (read_returns_last_write 10 0
           [Push 7; Push 9; SetAt 0 8; SetAt (-3) 5; SetAt 40 1; Push 2] 0
           ltac:(lia) ltac:(cbn; lia)).
Defined.

(** X2. A push moves the window up by one and keeps its width equal to the
    capacity: [minn] and [maxn] both grow by 1, the pushed element is read
    at the new [maxn], the index that was [minn] is no longer accepted, and
    every other index of the old window still reads as before. *)
Theorem push_moves_window {T : Type} (c : Z) (init : T) (ops : list (op T))
    (v : T) :
  0 <= c < 2 ^ 31 -> pushes ops < 2 ^ 63 - 1 ->
  let b := run (CircularBuffer c init) ops in
  let b' := push b v in
  size b' = size b /\ pushed b' = pushed b + 1 /\
  minn b' = minn b + 1 /\ maxn b' = maxn b + 1 /\
  maxn b - minn b + 1 = size b /\
  at_ b' (maxn b') = Returns v /\
  at_ b' (minn b) = Throws (out_of_range (what "at" b' (minn b))) /\
  forall n, minn b' <= n <= maxn b -> at_ b' n = at_ b n.
Proof.
  intros Hc Hp b b'.
  destruct (run_constructor c init ops Hc) as (Hwf & Hsz & HN); [lia|].
  fold b in Hwf, Hsz, HN. pose proof (pushes_nonneg ops) as H0.
  pose proof (push_wf b v Hwf) as Hwf'. fold b' in Hwf'.
  assert (HN' : N b' = N b + 1).
  { subst b'. cbn [push N]. apply wrap_uint64_small. lia. }
  destruct (bounds_value b Hwf) as [Hmin Hmax]; [lia|].
  destruct (bounds_value b' Hwf') as [Hmin' Hmax']; [lia|].
  assert (Hsz' : size b' = size b) by reflexivity.
  assert (Hpos : 0 < size b).
  { destruct Hwf as (k & Hk & Hs & _). rewrite Hs.
    apply Z.pow_pos_nonneg; lia. }
  unfold pushed. split; [exact Hsz'|]. split; [exact HN'|].
  split; [lia|]. split; [lia|]. split; [lia|].
  assert (Hrd : forall n, minn b' <= n <= maxn b' ->
                  read b' n = if n =? N b then Some v else read b n).
  { intros n Hn. subst b'. apply read_push; [exact Hwf|]. lia. }
  split; [|split].
  - destruct (at_inside b' (maxn b') Hwf') as (x & Hx & Hat); [lia|].
    rewrite Hrd in Hx by lia.
    destruct (Z.eqb_spec (maxn b') (N b)); [|lia].
    injection Hx as <-. exact Hat.
  - apply at_outside. lia.
  - intros n Hn.
    destruct (at_inside b' n Hwf') as (x & Hx & Hat); [lia|].
    destruct (at_inside b n Hwf) as (y & Hy & Hat0); [lia|].
    rewrite Hrd in Hx by lia.
    destruct (Z.eqb_spec n (N b)); [lia|].
    rewrite Hat, Hat0. congruence.
Qed.

Lemma push_moves_window_witness :
  let b := run (CircularBuffer 2 0) [Push 3; Push 1; Push 4; Push 1; Push 5] in
  let b' := push b 9 in
  size b' = size b /\ pushed b' = pushed b + 1 /\
  minn b' = minn b + 1 /\ maxn b' = maxn b + 1 /\
  maxn b - minn b + 1 = size b /\
  at_ b' (maxn b') = Returns 9 /\
  at_ b' (minn b) = Throws (out_of_range (what "at" b' (minn b))) /\
  forall n, minn b' <= n <= maxn b -> at_ b' n = at_ b n.
Proof.
  exact (push_moves_window 2 0 [Push 3; Push 1; Push 4; Push 1; Push 5] 9
           ltac:(lia) ltac:(cbn; lia)).
Defined.

(** X3. An accepted [set] changes one element and nothing else: the counter
    and the window stay, the index reads the new value, and the checked read
    of every other index gives what it gave before (the same value, or the
    same exception). *)
Theorem set_changes_one_index {T : Type} (c : Z) (init : T)
    (ops : list (op T)) (n : Z) (v : T) :
  0 <= c < 2 ^ 31 -> pushes ops < 2 ^ 63 ->
  let b := run (CircularBuffer c init) ops in
  minn b <= n <= maxn b ->
  exists b', set b n v = Returns b' /\
    size b' = size b /\ pushed b' = pushed b /\
    minn b' = minn b /\ maxn b' = maxn b /\
    at_ b' n = Returns v /\
    forall m, m <> n -> at_ b' m = at_ b m.
Proof.
  intros Hc Hp b Hn.
  destruct (run_constructor c init ops Hc Hp) as (Hwf & Hsz & HN).
  fold b in Hwf, Hsz, HN.
  destruct (bounds_value b Hwf) as [Hmin Hmax]; [lia|].
  destruct (set_inside b n v Hwf Hn) as (b' & Hset & Hat & Hmin' & Hmax').
  destruct (set_size_N b n v b' Hset) as [Hsz' HN'].
  pose proof (set_wf b n v b' Hset Hwf) as Hwf'.
  exists b'. unfold pushed. repeat split; try assumption.
  intros m Hm.
  destruct (Z_le_dec (minn b) m) as [H1|H1];
    [destruct (Z_le_dec m (maxn b)) as [H2|H2]|].
  - destruct (at_inside b' m Hwf') as (x & Hx & Hatx); [lia|].
    destruct (at_inside b m Hwf) as (y & Hy & Haty); [lia|].
    rewrite (read_set b n v b' m Hwf Hset) in Hx by lia.
    destruct (Z.eqb_spec m n); [contradiction|].
    rewrite Hatx, Haty. congruence.
  - rewrite !at_outside by lia. unfold what. rewrite Hmin', Hmax'. reflexivity.
  - rewrite !at_outside by lia. unfold what. rewrite Hmin', Hmax'. reflexivity.
Qed.

Lemma set_changes_one_index_witness :
  let b := run (CircularBuffer 2 0) [Push 3; Push 1; Push 4; Push 1; Push 5] in
  exists b', set b 3 7 = Returns b' /\
    size b' = size b /\ pushed b' = pushed b /\
    minn b' = minn b /\ maxn b' = maxn b /\
    at_ b' 3 = Returns 7 /\
    forall m, m <> 3 -> at_ b' m = at_ b m.
Proof.
  exact (set_changes_one_index 2 0 [Push 3; Push 1; Push 4; Push 1; Push 5] 3 7
           ltac:(lia) ltac:(cbn; lia) ltac:(vm_compute; split; discriminate)).
Defined.

(** X4. The unchecked read [operator()] never leaves the vector and has
    period [size]: an index [k] capacities away from [n] reads the slot of
    [n]. So for an index of the window the unchecked read of [n + k * size]
    returns what the checked read of [n] returns, with no exception. *)
Theorem unchecked_read_wraps {T : Type} (c : Z) (init : T)
    (ops : list (op T)) (n k : Z) :
  0 <= c < 2 ^ 31 -> pushes ops < 2 ^ 63 ->
  let b := run (CircularBuffer c init) ops in
  (exists v, read b n = Some v) /\
  read b (n + k * size b) = read b n /\
  (forall v, at_ b n = Returns v -> read b (n + k * size b) = Some v).
Proof.
  intros Hc Hp b.
  destruct (run_constructor c init ops Hc Hp) as (Hwf & Hsz & HN).
  fold b in Hwf, Hsz, HN.
  assert (Hper : read b (n + k * size b) = read b n).
  { unfold read. destruct (slot_value b n Hwf) as [-> _].
    destruct (slot_value b (n + k * size b) Hwf) as [-> _].
    rewrite Z.mod_add; [reflexivity|].
    destruct Hwf as (j & Hj & Hs & _). rewrite Hs.
    assert (0 < 2 ^ j) by (apply Z.pow_pos_nonneg; lia). lia. }
  split; [apply read_is_Some, Hwf|]. split; [exact Hper|].
  intros v Hat. rewrite Hper. unfold at_ in Hat.
  destruct ((minn b <=? n) && (n <=? maxn b)); [|discriminate].
  destruct (read b n); [|discriminate]. congruence.
Qed.

Lemma unchecked_read_wraps_witness :
  let b := run (CircularBuffer 2 0) [Push 3; Push 1; Push 4; Push 1; Push 5] in
  (exists v, read b 4 = Some v) /\
  read b (4 + (-1) * size b) = read b 4 /\
  (forall v, at_ b 4 = Returns v -> read b (4 + (-1) * size b) = Some v).
Proof.
  exact (unchecked_read_wraps 2 0 [Push 3; Push 1; Push 4; Push 1; Push 5] 4 (-1)
           ltac:(lia) ltac:(cbn; lia)).
Defined.

(** X17. The window is read off the 64 bit counter as a signed number, so
    it breaks when the counter passes 2^63: in a well-formed store whose
    counter [N] lies strictly between 2^63 and 2^63 + [size], [maxn()] is
    negative while [minn()] is still positive, and [at] and [set] throw for
    every index. *)
Theorem window_breaks_past_int64 {T : Type} (b : t T) (n : Z) (v : T) :
  wf b -> 2 ^ 63 < N b < 2 ^ 63 + size b ->
  maxn b = N b - 1 - 2 ^ 64 /\ minn b = N b - size b /\
  maxn b < 0 < minn b /\
  at_ b n = Throws (out_of_range (what "at" b n)) /\
  set b n v = Throws (out_of_range (what "set" b n)).
Proof.
  intros (k & Hk & Hs & Hm & Hl & HN) Hrange.
  assert (Hq : 2 ^ k <= 2 ^ 31) by (apply Z.pow_le_mono_r; lia).
  assert (Hp : 0 < 2 ^ k) by (apply Z.pow_pos_nonneg; lia).
  assert (Hmax : maxn b = N b - 1 - 2 ^ 64).
  { unfold maxn. rewrite wrap_uint64_small by lia.
    unfold to_int64.
    replace (N b - 1 + 2 ^ 63) with ((N b - 1 - 2 ^ 63) + 1 * 2 ^ 64) by lia.
    rewrite Z.mod_add by lia. rewrite Z.mod_small; lia. }
  assert (Hmin : minn b = N b - size b).
  { unfold minn. rewrite wrap_uint64_small by lia.
    apply to_int64_small. lia. }
  split; [exact Hmax|]. split; [exact Hmin|]. split; [lia|].
  split; [apply at_outside|apply set_outside]; lia.
Qed.

Lemma window_breaks_past_int64_witness :
  let b := {| size := 4; mask := 3; buf := [1; 2; 3; 4]; N := 2 ^ 63 + 2 |} in
  maxn b = N b - 1 - 2 ^ 64 /\ minn b = N b - size b /\
  maxn b < 0 < minn b /\
  at_ b 5 = Throws (out_of_range (what "at" b 5)) /\
  set b 5 0 = Throws (out_of_range (what "set" b 5)).
Proof.
  refine (window_breaks_past_int64
            {| size := 4; mask := 3; buf := [1; 2; 3; 4]; N := 2 ^ 63 + 2 |}
            5 0 _ _).
  - exists 2. cbn [size mask buf N length]. repeat split; try lia.
  - cbn [size N]. lia.
Defined.

End SampleStoreMore.

(** ** The inline helpers *)
Module InlineMathFacts.
Import InlineMath.

(** The sign of a product is the only place where the signs of the factors
    enter the rounding. *)
Lemma binary_round_aux_opp (sx : bool) (mx ex : Z) (lx : location) :
  binary_round_aux prec emax (negb sx) mx ex lx =
  SFopp (binary_round_aux prec emax sx mx ex lx).
Proof.
  unfold binary_round_aux.
  destruct (shr_fexp prec emax mx ex lx) as [mrs e'].
  destruct (shr_fexp prec emax _ e' loc_Exact) as [mrs' e''].
  destruct (shr_m mrs') as [|m|m]; [reflexivity| |reflexivity].
  destruct (e'' <=? emax - prec); reflexivity.
Qed.

Lemma SF64mul_opp_r (a b : spec_float) :
  SF64mul a (SFopp b) = SFopp (SF64mul a b).
Proof.
  unfold SF64mul.
  destruct a as [sa|sa| |sa ma ea], b as [sb|sb| |sb mb eb];
    cbn [SFmul SFopp]; try reflexivity;
    try (destruct sa, sb; reflexivity).
  rewrite <- binary_round_aux_opp. destruct sa, sb; reflexivity.
Qed.

Lemma SF64mul_opp_l (a b : spec_float) :
  SF64mul (SFopp a) b = SFopp (SF64mul a b).
Proof.
  unfold SF64mul.
  destruct a as [sa|sa| |sa ma ea], b as [sb|sb| |sb mb eb];
    cbn [SFmul SFopp]; try reflexivity;
    try (destruct sa, sb; reflexivity).
  rewrite <- binary_round_aux_opp. destruct sa, sb; reflexivity.
Qed.

Lemma SFopp_involutive (a : spec_float) : SFopp (SFopp a) = a.
Proof. destruct a as [s|s| |s m e]; cbn; rewrite ?negb_involutive; reflexivity. Qed.

(** A product of two factors of equal sign is not below zero. *)
Lemma SF64mul_same_sign (a : spec_float) :
  SFltb (SF64mul a a) (S754_zero false) = false.
Proof.
  unfold SF64mul. destruct a as [s|s| |s m e]; cbn [SFmul];
    try reflexivity; try (destruct s; reflexivity).
  unfold binary_round_aux.
  destruct (shr_fexp prec emax _ (e + e) loc_Exact) as [mrs e'].
  destruct (shr_fexp prec emax _ e' loc_Exact) as [mrs' e''].
  destruct (shr_m mrs') as [|m'|m']; [destruct s; reflexivity| |reflexivity].
  destruct (e'' <=? emax - prec); destruct s; reflexivity.
Qed.

End InlineMathFacts.

Module InlineMathProps.
Import InlineMath InlineMathFacts.

(** X5. For every argument from 1 to 2^31, [myriota_is_power_of_two]
    returns 1 when the argument is a power of two and 0 otherwise. *)
Theorem is_power_of_two_decides (x : Z) :
  1 <= x <= 2 ^ 31 ->
  (myriota_is_power_of_two x = 1 <-> is_power_of_two x) /\
  (myriota_is_power_of_two x = 0 <-> ~ is_power_of_two x).
Proof.
  intros Hx. unfold myriota_is_power_of_two.
  destruct (greater_power_of_two_spec x Hx) as (k & Hk & Heq & Hge & Hlt).
  assert (Hiff : myriota_greater_power_of_two x = x <-> is_power_of_two x).
  { split.
    - intros Hx'. exists k. split; [lia|congruence].
    - intros Hpow. rewrite Heq.
      pose proof (power_of_two_minimal k x x ltac:(lia) Hlt Hpow ltac:(lia)).
      lia. }
  destruct (Z.eqb_spec (myriota_greater_power_of_two x) x) as [He|Hne];
    split; split; try discriminate; tauto.
Qed.

Lemma is_power_of_two_decides_witness :
  (myriota_is_power_of_two 48 = 1 <-> is_power_of_two 48) /\
  (myriota_is_power_of_two 48 = 0 <-> ~ is_power_of_two 48).
Proof.
  exact (is_power_of_two_decides 48 ltac:(lia)).
Defined.

(** X6. For an unsigned type of [width] bits, [a / b + (a % b != 0)] with
    [b > 0] is the ceiling of [a / b]: the least [r] with [a <= r * b]. It
    is at most [a], so the sum does not wrap. *)
Theorem div_ceil_is_ceiling (width a b : Z) :
  0 <= a < 2 ^ width -> 0 < b < 2 ^ width ->
  exists r, div_ceil width a b = Some r /\
            (r - 1) * b < a <= r * b /\ 0 <= r <= a.
Proof.
  intros Ha Hb. unfold div_ceil.
  destruct (Z.eqb_spec b 0) as [|_]; [lia|].
  pose proof (Z.div_mod a b ltac:(lia)) as Hdm.
  pose proof (Z.mod_pos_bound a b ltac:(lia)) as Hm.
  assert (Hq : 0 <= a / b) by (apply Z.div_pos; lia).
  set (r := a / b + (if a mod b =? 0 then 0 else 1)).
  assert (Hr : (r - 1) * b < a <= r * b /\ 0 <= r <= a).
  { subst r. destruct (Z.eqb_spec (a mod b) 0); nia. }
  exists r. split; [|exact Hr].
  f_equal. apply Z.mod_small. lia.
Qed.

Lemma div_ceil_is_ceiling_witness :
  exists r, myriota_int_div_ceil 4294967295 2 = Some r /\
            (r - 1) * 2 < 4294967295 <= r * 2 /\ 0 <= r <= 4294967295.
Proof.
  exact (div_ceil_is_ceiling 32 4294967295 2 ltac:(lia) ltac:(lia)).
Defined.

(** X7. For a positive modulus [y] the template [mod] returns the
    representative of [x] in [{0, ..., y - 1}], for negative [x] as well. *)
Theorem mod_is_representative (x y : Z) :
  0 < y ->
  mod_ x y = Some (x mod y) /\ 0 <= x mod y < y /\
  mod_ (x mod y) y = Some (x mod y).
Proof.
  intros Hy.
  assert (Hval : forall z, mod_ z y = Some (z mod y)).
  { intros z. unfold mod_. destruct (Z.eqb_spec y 0) as [|_]; [lia|].
    cbn zeta. f_equal.
    pose proof (Z.quot_rem' z y) as Hqr.
    pose proof (Z.rem_bound_abs z y ltac:(lia)) as Habs.
    destruct (Z.ltb_spec (Z.rem z y) 0) as [Hneg|Hpos].
    - apply (Z.mod_unique_pos z y (Z.quot z y - 1)); lia.
    - apply (Z.mod_unique_pos z y (Z.quot z y)); lia. }
  split; [apply Hval|]. split; [apply Z.mod_pos_bound, Hy|].
  rewrite Hval. f_equal. apply Z.mod_mod. lia.
Qed.

Lemma mod_is_representative_witness :
  mod_ (-7) 3 = Some ((-7) mod 3) /\ 0 <= (-7) mod 3 < 3 /\
  mod_ ((-7) mod 3) 3 = Some ((-7) mod 3).
Proof.
  exact (mod_is_representative (-7) 3 ltac:(lia)).
Defined.

(** X8. [myriota_signum] returns exactly 1 for an argument above zero,
    exactly -1 for one below zero, and 0 for every other argument: both
    zeros and not-a-number. *)
Theorem signum_values (x : float) :
  ((0 <? x)%float = true /\ myriota_signum x = 1%float) \/
  ((x <? 0)%float = true /\ myriota_signum x = (-1)%float) \/
  ((0 <? x)%float = false /\ (x <? 0)%float = false /\
   myriota_signum x = 0%float).
Proof.
  unfold myriota_signum. rewrite !ltb_spec.
  change (Prim2SF 0) with (S754_zero false).
  destruct (Prim2SF x) as [s|s| |s m e]; cbn [SFltb SFcompare];
    try destruct s; cbn;
    first [ left; split; reflexivity
          | right; left; split; reflexivity
          | right; right; repeat split; reflexivity ].
Qed.

(** X9. [myriota_sqr] gives the same result for [x] and [-x], and the
    result is never below zero. *)
Theorem sqr_even_not_negative (x : float) :
  myriota_sqr (- x) = myriota_sqr x /\ (myriota_sqr x <? 0)%float = false.
Proof.
  unfold myriota_sqr. split.
  - apply Prim2SF_inj. rewrite !mul_spec, opp_spec.
    rewrite SF64mul_opp_l, SF64mul_opp_r. apply SFopp_involutive.
  - rewrite ltb_spec, mul_spec. change (Prim2SF 0) with (S754_zero false).
    apply SF64mul_same_sign.
Qed.

(** X10. [myriota_cub] is odd: the cube of [-x] is the cube of [x] with the
    sign changed, rounding included. *)
Theorem cub_odd (x : float) :
  myriota_cub (- x) = (- myriota_cub x)%float.
Proof.
  unfold myriota_cub. apply Prim2SF_inj.
  rewrite opp_spec, !mul_spec, opp_spec.
  repeat first [ rewrite SF64mul_opp_r | rewrite SF64mul_opp_l
               | rewrite SFopp_involutive ].
  reflexivity.
Qed.

End InlineMathProps.

(** ** More on the resamplers *)
Module ResamplerMore.
Import ResamplerFacts.

(** X11. At every state of a downsampler reached by pushing [N] samples
    (fewer than 2^63), [pushed()] is [N], [gamma] and [W] are those of the
    construction, [minn()] is [ceil(gamma * (N - 1 - C) + W)] and [maxn()]
    is [floor(gamma * (N - 2) - W)], with [C] the capacity of the store. *)
Theorem downsampler_window {D : Type} `{DoubleOps D} (g w : D) (c : Z)
    (init : D * D) (xs : list (D * D)) :
  0 <= c < 2 ^ 31 -> Z.of_nat (length xs) < 2 ^ 63 ->
  let d := Downsampler.push_all (Downsampler.make g w c init) xs in
  let C := CircularBuffer.size (Downsampler.a d) in
  let N := Z.of_nat (length xs) in
  Downsampler.pushed d = N /\
  Downsampler.gamma d = g /\ Downsampler.W d = w /\
  C = CircularBuffer.size (CircularBuffer.CircularBuffer c init) /\
  Downsampler.minn d = ceil_int64 (dadd (dmul g (of_int64 (N - 1 - C))) w) /\
  Downsampler.maxn d = floor_int64 (dsub (dmul g (of_int64 (N - 1 - 1))) w).
Proof.
  intros Hc Hlen d C N.
  destruct (downsampler_push_all xs (Downsampler.make g w c init))
    as (Ha & Hg & Hw).
  fold d in Ha, Hg, Hw.
  cbn [Downsampler.make Downsampler.a Downsampler.gamma Downsampler.W]
    in Ha, Hg, Hw.
  destruct (store_after_pushes c init xs Hc Hlen) as (Hsz & HN & _).
  rewrite <- Ha in Hsz, HN. fold C in Hsz.
  destruct (downsampler_bounds g w c init xs Hc Hlen) as [Hmin Hmax].
  fold d in Hmin, Hmax. fold N in Hmin, Hmax.
  unfold Downsampler.pushed. rewrite Hsz.
  repeat split; assumption.
Qed.

Lemma downsampler_window_witness :
  let g := 0.5%float in
  let w := 3%float in
  let init := (0%float, 0%float) in
  let xs := [(1%float, 0%float); (0%float, 1%float); (2%float, 2%float)] in
  let d := Downsampler.push_all (Downsampler.make g w 30 init) xs in
  let C := CircularBuffer.size (Downsampler.a d) in
  let N := Z.of_nat (length xs) in
  Downsampler.pushed d = N /\
  Downsampler.gamma d = g /\ Downsampler.W d = w /\
  C = CircularBuffer.size (CircularBuffer.CircularBuffer 30 init) /\
  Downsampler.minn d = ceil_int64 (dadd (dmul g (of_int64 (N - 1 - C))) w) /\
  Downsampler.maxn d = floor_int64 (dsub (dmul g (of_int64 (N - 1 - 1))) w).
Proof.
  exact (downsampler_window 0.5%float 3%float 30 (0%float, 0%float)
           [(1%float, 0%float); (0%float, 1%float); (2%float, 2%float)]
           ltac:(lia) ltac:(cbn; lia)).
Defined.

(** X12. The windows of both resamplers depend on the samples pushed only
    through their number: two runs of equally many pushes, whatever the
    samples, leave the same [pushed()], [minn()] and [maxn()]. *)
Theorem window_ignores_samples {D : Type} `{DoubleOps D} (g w : D) (c : Z)
    (init : D * D) (xs ys : list (D * D)) :
  0 <= c < 2 ^ 31 -> Z.of_nat (length xs) < 2 ^ 63 ->
  length xs = length ys ->
  let u1 := Upsampler.push_all (Upsampler.make g w c init) xs in
  let u2 := Upsampler.push_all (Upsampler.make g w c init) ys in
  let d1 := Downsampler.push_all (Downsampler.make g w c init) xs in
  let d2 := Downsampler.push_all (Downsampler.make g w c init) ys in
  Upsampler.pushed u1 = Upsampler.pushed u2 /\
  Upsampler.minn u1 = Upsampler.minn u2 /\
  Upsampler.maxn u1 = Upsampler.maxn u2 /\
  Downsampler.pushed d1 = Downsampler.pushed d2 /\
  Downsampler.minn d1 = Downsampler.minn d2 /\
  Downsampler.maxn d1 = Downsampler.maxn d2.
Proof.
  intros Hc Hlen Heq u1 u2 d1 d2.
  assert (Hlen' : Z.of_nat (length ys) < 2 ^ 63) by (rewrite <- Heq; exact Hlen).
  destruct (upsampler_bounds g w c init xs Hc Hlen) as [Hu1 Hu1'].
  destruct (upsampler_bounds g w c init ys Hc Hlen') as [Hu2 Hu2'].
  destruct (downsampler_bounds g w c init xs Hc Hlen) as [Hd1 Hd1'].
  destruct (downsampler_bounds g w c init ys Hc Hlen') as [Hd2 Hd2'].
  fold u1 in Hu1, Hu1'. fold u2 in Hu2, Hu2'.
  fold d1 in Hd1, Hd1'. fold d2 in Hd2, Hd2'.
  rewrite Hu1, Hu1', Hu2, Hu2', Hd1, Hd1', Hd2, Hd2', Heq.
  destruct (upsampler_push_all xs (Upsampler.make g w c init)) as (Ha1 & _).
  destruct (upsampler_push_all ys (Upsampler.make g w c init)) as (Ha2 & _).
  destruct (downsampler_push_all xs (Downsampler.make g w c init)) as (Hb1 & _).
  destruct (downsampler_push_all ys (Downsampler.make g w c init)) as (Hb2 & _).
  fold u1 in Ha1. fold u2 in Ha2. fold d1 in Hb1. fold d2 in Hb2.
  destruct (store_after_pushes c init xs Hc Hlen) as (_ & HN1 & _).
  destruct (store_after_pushes c init ys Hc Hlen') as (_ & HN2 & _).
  unfold Upsampler.pushed, Downsampler.pushed.
  rewrite Ha1, Ha2, Hb1, Hb2.
  cbn [Upsampler.make Upsampler.a Downsampler.make Downsampler.a].
  rewrite HN1, HN2, Heq. repeat split; reflexivity.
Qed.

Lemma window_ignores_samples_witness :
  let g := 2%float in
  let w := 3%float in
  let init := (0%float, 0%float) in
  let xs := [(1%float, 0%float); (0%float, 1%float)] in
  let ys := [(5%float, 5%float); (7%float, 7%float)] in
  let u1 := Upsampler.push_all (Upsampler.make g w 30 init) xs in
  let u2 := Upsampler.push_all (Upsampler.make g w 30 init) ys in
  let d1 := Downsampler.push_all (Downsampler.make g w 30 init) xs in
  let d2 := Downsampler.push_all (Downsampler.make g w 30 init) ys in
  Upsampler.pushed u1 = Upsampler.pushed u2 /\
  Upsampler.minn u1 = Upsampler.minn u2 /\
  Upsampler.maxn u1 = Upsampler.maxn u2 /\
  Downsampler.pushed d1 = Downsampler.pushed d2 /\
  Downsampler.minn d1 = Downsampler.minn d2 /\
  Downsampler.maxn d1 = Downsampler.maxn d2.
Proof.
  exact (window_ignores_samples 2%float 3%float 30 (0%float, 0%float)
           [(1%float, 0%float); (0%float, 1%float)]
           [(5%float, 5%float); (7%float, 7%float)]
           ltac:(lia) ltac:(cbn; lia) eq_refl).
Defined.

End ResamplerMore.

(** ** The development board: battery voltage *)
Module BoardFacts.
Import Board.

(** The three outcomes of the averaging loop unfolded: the first failing
    call ends it. *)
Lemma average_loop_cases (adc : nat -> Z * Z) (IsRev1 : bool) :
  let Ref := if IsRev1 then ADC_REF_VIO else ADC_REF_2V5 in
  let read := ADCGetVoltage ADCPin Ref in
  let release := GPIOSetModeInput ControlPin GPIO_PULL_DOWN in
  let add v i := wrap_uint (v + wrap_uint (snd (adc i) + VEXT_COMPENSATE)) in
  average_loop adc IsRev1 AVERAGE_COUNT 0 0 prepare =
    if fst (adc 0%nat) =? 0 then
      if fst (adc 1%nat) =? 0 then
        if fst (adc 2%nat) =? 0 then
          (prepare ++ [read; read; read],
           Some (add (add (add 0 0%nat) 1%nat) 2%nat))
        else (prepare ++ [read; read; read; release], None)
      else (prepare ++ [read; read; release], None)
    else (prepare ++ [read; release], None).
Proof.
  cbv zeta. unfold AVERAGE_COUNT. cbn [average_loop].
  destruct (fst (adc 0%nat) =? 0); [|reflexivity].
  destruct (fst (adc 1%nat) =? 0); [|reflexivity].
  destruct (fst (adc 2%nat) =? 0); reflexivity.
Qed.

(** All three calls succeed. *)
Lemma three_statuses (adc : nat -> Z * Z) :
  (forall i, (i < 3)%nat -> fst (adc i) = 0) <->
  fst (adc 0%nat) = 0 /\ fst (adc 1%nat) = 0 /\ fst (adc 2%nat) = 0.
Proof.
  split.
  - intros Hall. repeat split; apply Hall; lia.
  - intros (H0 & H1 & H2) i Hi.
    destruct i as [|[|[|i]]]; [assumption|assumption|assumption|lia].
Qed.

Lemma wrap_uint16_of_wrap_uint (x : Z) : wrap_uint16 (wrap_uint x) = wrap_uint16 x.
Proof.
  unfold wrap_uint16, wrap_uint, UINT_WIDTH.
  apply Z.mod_mod_divide. exists (2 ^ 16). reflexivity.
Qed.

End BoardFacts.

Module BoardProps.
Import Board BoardFacts.

(** X14. [BoardBatteryVoltGet] always releases the measurement switch: on
    every path its last hardware call sets the control pin back to an input
    with pull-down. It returns 0 when all three readings succeed and -1
    otherwise; it stores a voltage exactly when it returns 0; and it stops
    reading at the first failure. *)
Theorem battery_switch_released (IsRev1 : bool) (adc : nat -> Z * Z) :
  let r := BoardBatteryVoltGet IsRev1 adc in
  last (trace r) = Some (GPIOSetModeInput ControlPin GPIO_PULL_DOWN) /\
  (ret r = 0 \/ ret r = -1) /\
  (ret r = 0 <-> forall i, (i < 3)%nat -> fst (adc i) = 0) /\
  (ret r = 0 <-> exists v, mv r = Some v) /\
  (ret r = 0 -> adc_calls (trace r) = 3%nat) /\
  (ret r = -1 ->
   exists k, (k < 3)%nat /\ fst (adc k) <> 0 /\
             (forall i, (i < k)%nat -> fst (adc i) = 0) /\
             adc_calls (trace r) = S k).
Proof.
  intros r. subst r. unfold BoardBatteryVoltGet.
  rewrite average_loop_cases. pose proof (three_statuses adc) as Hst.
  destruct (Z.eqb_spec (fst (adc 0%nat)) 0) as [H0|H0];
    [destruct (Z.eqb_spec (fst (adc 1%nat)) 0) as [H1|H1];
       [destruct (Z.eqb_spec (fst (adc 2%nat)) 0) as [H2|H2]|]|];
    cbn [trace ret mv].
  - split; [reflexivity|]. split; [left; reflexivity|].
    split; [split; [intros _; apply Hst; auto|reflexivity]|].
    split; [split; [intros _; eexists; reflexivity|reflexivity]|].
    split; [intros _; reflexivity|discriminate].
  - split; [reflexivity|]. split; [right; reflexivity|].
    split; [split; [discriminate|intros Hall; apply Hst in Hall; tauto]|].
    split; [split; [discriminate|intros [v Hv]; discriminate]|].
    split; [discriminate|]. intros _. exists 2%nat.
    split; [lia|]. split; [exact H2|]. split; [|reflexivity].
    intros i Hi. destruct i as [|[|i]]; [assumption|assumption|lia].
  - split; [reflexivity|]. split; [right; reflexivity|].
    split; [split; [discriminate|intros Hall; apply Hst in Hall; tauto]|].
    split; [split; [discriminate|intros [v Hv]; discriminate]|].
    split; [discriminate|]. intros _. exists 1%nat.
    split; [lia|]. split; [exact H1|]. split; [|reflexivity].
    intros i Hi. destruct i as [|i]; [assumption|lia].
  - split; [reflexivity|]. split; [right; reflexivity|].
    split; [split; [discriminate|intros Hall; apply Hst in Hall; tauto]|].
    split; [split; [discriminate|intros [v Hv]; discriminate]|].
    split; [discriminate|]. intros _. exists 0%nat.
    split; [lia|]. split; [exact H0|]. split; [|reflexivity].
    intros i Hi. lia.
Qed.

(** X15. When the three readings succeed and are below 2^30 mV, the
    voltage [BoardBatteryVoltGet] stores is the mean of the readings, each
    raised by the 15 mV compensation, rounded down, and doubled on boards
    other than revision 1; the mean lies between the smallest and the
    largest reading plus 15. *)
Theorem battery_average (IsRev1 : bool) (adc : nat -> Z * Z) :
  (forall i, (i < 3)%nat -> fst (adc i) = 0 /\ 0 <= snd (adc i) < 2 ^ 30) ->
  let b0 := snd (adc 0%nat) in
  let b1 := snd (adc 1%nat) in
  let b2 := snd (adc 2%nat) in
  let avg := (b0 + b1 + b2 + 3 * VEXT_COMPENSATE) / 3 in
  ret (BoardBatteryVoltGet IsRev1 adc) = 0 /\
  mv (BoardBatteryVoltGet IsRev1 adc) = Some (if IsRev1 then avg else 2 * avg) /\
  Z.min b0 (Z.min b1 b2) + VEXT_COMPENSATE <= avg <=
    Z.max b0 (Z.max b1 b2) + VEXT_COMPENSATE.
Proof.
  intros Hall b0 b1 b2 avg.
  destruct (Hall 0%nat ltac:(lia)) as [H0 R0].
  destruct (Hall 1%nat ltac:(lia)) as [H1 R1].
  destruct (Hall 2%nat ltac:(lia)) as [H2 R2].
  fold b0 in R0. fold b1 in R1. fold b2 in R2.
  unfold BoardBatteryVoltGet. rewrite average_loop_cases.
  rewrite H0, H1, H2. cbn [Z.eqb ret mv]. fold b0 b1 b2.
  unfold VEXT_COMPENSATE in *.
  rewrite (wrap_uint_small (b0 + 15)) by lia.
  rewrite (wrap_uint_small (0 + (b0 + 15))) by lia.
  rewrite (wrap_uint_small (b1 + 15)) by lia.
  rewrite (wrap_uint_small (0 + (b0 + 15) + (b1 + 15))) by lia.
  rewrite (wrap_uint_small (b2 + 15)) by lia.
  rewrite (wrap_uint_small (0 + (b0 + 15) + (b1 + 15) + (b2 + 15))) by lia.
  replace (0 + (b0 + 15) + (b1 + 15) + (b2 + 15)) with (b0 + b1 + b2 + 3 * 15)
    by lia.
  change (Z.of_nat AVERAGE_COUNT) with 3. fold avg.
  assert (Havg : Z.min b0 (Z.min b1 b2) + 15 <= avg <=
                 Z.max b0 (Z.max b1 b2) + 15).
  { subst avg. Z.div_mod_to_equations. lia. }
  split; [reflexivity|]. split; [|exact Havg].
  destruct IsRev1; [reflexivity|]. f_equal.
  rewrite wrap_uint_small; lia.
Qed.

Lemma battery_average_witness :
  let adc := fun i : nat => (0, 3300 + Z.of_nat i) in
  let b0 := snd (adc 0%nat) in
  let b1 := snd (adc 1%nat) in
  let b2 := snd (adc 2%nat) in
  let avg := (b0 + b1 + b2 + 3 * VEXT_COMPENSATE) / 3 in
  ret (BoardBatteryVoltGet false adc) = 0 /\
  mv (BoardBatteryVoltGet false adc) = Some (2 * avg) /\
  Z.min b0 (Z.min b1 b2) + VEXT_COMPENSATE <= avg <=
    Z.max b0 (Z.max b1 b2) + VEXT_COMPENSATE.
Proof.
  refine (battery_average false (fun i : nat => (0, 3300 + Z.of_nat i)) _).
  intros i Hi. cbn [fst snd]. split; [reflexivity|lia].
Defined.

(** X16. [ShortBatteryVoltGet] makes the same hardware calls and returns the
    same value as [BoardBatteryVoltGet], and the voltage it stores is that
    of [BoardBatteryVoltGet] modulo 65536: the same voltage whenever that is
    below 65536 mV. *)
Theorem short_is_board_mod_65536 (IsRev1 : bool) (adc : nat -> Z * Z) :
  let s := ShortBatteryVoltGet IsRev1 adc in
  let b := BoardBatteryVoltGet IsRev1 adc in
  trace s = trace b /\ ret s = ret b /\
  mv s = option_map wrap_uint16 (mv b) /\
  (forall v, mv b = Some v -> v < 2 ^ 16 -> mv s = Some v).
Proof.
  intros s b. subst s b. unfold ShortBatteryVoltGet, BoardBatteryVoltGet.
  rewrite average_loop_cases.
  destruct (fst (adc 0%nat) =? 0);
    [destruct (fst (adc 1%nat) =? 0); [destruct (fst (adc 2%nat) =? 0)|]|];
    cbn [trace ret mv option_map];
    try (repeat split; try reflexivity; intros v Hv; discriminate).
  set (volt := wrap_uint (_ + _)).
  change (Z.of_nat AVERAGE_COUNT) with 3.
  assert (Hvolt : 0 <= volt / 3).
  { apply Z.div_pos; [|lia]. subst volt. unfold wrap_uint, UINT_WIDTH.
    apply Z.mod_pos_bound. lia. }
  assert (Hmv : (if IsRev1 then wrap_uint16 (volt / 3)
                 else wrap_uint16 (wrap_uint16 (volt / 3) * 2)) =
                wrap_uint16 (if IsRev1 then volt / 3
                             else wrap_uint (volt / 3 * 2))).
  { destruct IsRev1; [reflexivity|].
    rewrite wrap_uint16_of_wrap_uint. unfold wrap_uint16.
    apply Zmult_mod_idemp_l. }
  split; [reflexivity|]. split; [reflexivity|]. split.
  - f_equal. exact Hmv.
  - intros v Hv Hlt. injection Hv as Hv. f_equal. rewrite Hmv, Hv.
    unfold wrap_uint16. apply Z.mod_small. split; [|exact Hlt].
    subst v. destruct IsRev1; [exact Hvolt|].
    unfold wrap_uint, UINT_WIDTH. apply Z.mod_pos_bound. lia.
Qed.

End BoardProps.

(** ** The slots below index 0 *)
Module InitialElement.
Import CircularBuffer CircularBufferFacts StoreFacts.





End InitialElement.
